(** * webca: the session store (package webca, sessions)

    A shallow embedding of the session registry, the cookie binding, the
    expiry sweep and the identifier generator, followed by the properties
    established about them.

    Modelling choices, all visible in the definitions below:
    - a Go [map] is a reference: session maps live in a [heap] indexed by
      locations, a [session] value is a possibly-nil reference ([sref]);
    - [interface{}] values are a small tagged union ([value]);
    - [time.Now] and [crypto/rand.Read] are read from oracles carried by
      the state, each call consuming one reading;
    - a run-time panic is an outcome of its own, next to normal return;
    - every exported operation is one atomic step; the mutex [smutex] is
      not represented;
    - [ReapSessions], the endless loop that sleeps and then sweeps, appears
      as the sweeps it performs: [CallCleanup] steps of a trace. *)

From Stdlib Require Import ZArith NArith String Ascii List Lia Strings.Byte.
From stdpp Require Import gmap strings list fin_maps.

Local Open Scope string_scope.
Local Open Scope Z_scope.

(** ** Constants *)

Definition SESSIONID : string := "goSessionId".
Definition LASTUSED : string := "goLastUsed".

(** [time.Duration] counts nanoseconds in a signed 64-bit integer. *)
Definition Second : Z := 1000000000.
Definition Minute : Z := 60 * Second.
Definition CLEANUPDELAY : Z := Minute.
Definition MAXSESSIONAGE : Z := 30 * Minute.

Definition minDuration : Z := - 2 ^ 63.
Definition maxDuration : Z := 2 ^ 63 - 1.

(** [t.Sub(u)]: the difference, clamped to the range of a Duration. An
    instant ([time.Time]) is a number of nanoseconds on one time line. *)
Definition time_Sub (t u : Z) : Z :=
  let d := t - u in
  if d <? minDuration then minDuration
  else if maxDuration <? d then maxDuration
  else d.

(** ** Values, errors, cookies *)

(** The dynamic values a session holds. [VNil] is the nil interface, which
    is also what indexing a map at a missing key yields. *)
Inductive value : Type :=
  | VNil
  | VString (s : string)
  | VTime (t : Z)
  | VOther (payload : string).

Inductive error : Type :=
  | ErrNoCookie
  | ErrOther (msg : string).

Definition error_eqb (a b : error) : bool :=
  match a, b with
  | ErrNoCookie, ErrNoCookie => true
  | ErrOther x, ErrOther y => String.eqb x y
  | _, _ => false
  end.

Record Cookie : Type := mkCookie {
  Name : string;
  Value : string;
  Path : string;
  MaxAge : Z
}.

(** The part of [*http.Request] the package touches: the cookies of the
    Cookie header in order, and the message of a failure of the cookie
    lookup other than absence, if the lookup is to fail that way. *)
Record Request : Type := mkRequest {
  req_cookies : list Cookie;
  req_fault : option string
}.

(** The part of [http.ResponseWriter] the package touches: the Set-Cookie
    headers written so far, oldest first. *)
Definition ResponseWriter : Type := list Cookie.

(** [r.Cookie(name)]: the first cookie of that name, [ErrNoCookie] when
    there is none. *)
Definition Request_Cookie (r : Request) (name : string)
  : option Cookie * option error :=
  match req_fault r with
  | Some msg => (None, Some (ErrOther msg))
  | None =>
      match List.find (fun c => String.eqb (Name c) name) (req_cookies r) with
      | Some c => (Some (mkCookie (Name c) (Value c) "" 0), None)
      | None => (None, Some ErrNoCookie)
      end
  end.

(** [r.AddCookie(c)]: only name and value travel in a Cookie header. The
    sanitising of name and value is not represented; it leaves the
    hexadecimal identifiers of this package as they are. *)
Definition Request_AddCookie (r : Request) (c : Cookie) : Request :=
  mkRequest (req_cookies r ++ [mkCookie (Name c) (Value c) "" 0]) (req_fault r).

(** [http.SetCookie(w, c)], for a cookie with a valid name. *)
Definition SetCookie (w : ResponseWriter) (c : Cookie) : ResponseWriter :=
  (w ++ [c])%list.

(** ** Hexadecimal encoding ([encoding/hex]) *)

Definition hextable : string := "0123456789abcdef".

Definition hexdigit (n : N) : ascii :=
  match String.get (N.to_nat n) hextable with
  | Some c => c
  | None => "0"%char
  end.

Fixpoint EncodeToString (src : list byte) : string :=
  match src with
  | [] => ""
  | v :: rest =>
      String (hexdigit (N.shiftr (Byte.to_N v) 4))
        (String (hexdigit (N.land (Byte.to_N v) 15)) (EncodeToString rest))
  end.

(** ** The random source *)

(** One answer of the random source: the bytes it delivers and the error it
    reports. *)
Record rand_reply : Type := mkReply {
  rr_bytes : list byte;
  rr_err : option error
}.

(** The number of bytes an answer puts into a buffer of [len] bytes. *)
Definition delivered (rep : rand_reply) (len : nat) : nat :=
  Nat.min (length (rr_bytes rep)) len.

(** [rand.Read(b)] against one answer: the first [n] bytes of [b] are
    overwritten, [n] and the error are returned. *)
Definition rand_Read (rep : rand_reply) (b : list byte)
  : list byte * nat * option error :=
  let n := delivered rep (length b) in
  ((take n (rr_bytes rep) ++ drop n b)%list, n, rr_err rep).

(** The documented contract of [crypto/rand.Read]: on return,
    [n == len(b)] if and only if [err == nil]. *)
Definition rand_contract (rep : rand_reply) (len : nat) : Prop :=
  delivered rep len = len ↔ rr_err rep = None.

(** ** Program state *)

Definition loc : Type := positive.

(** A [session] value: nil, or a reference to a map in the heap. *)
Definition sref : Type := option loc.

Record state : Type := mkState {
  heap : gmap loc (gmap string value);
  (** the package variable [sessions]; [None] is the nil map. Only maps
      made by [make] are ever stored, so entries are locations. *)
  sessions : option (gmap string loc);
  clock : nat → Z;
  ticks : nat;
  entropy : nat → rand_reply;
  draws : nat;
  logged : list string
}.

Definition set_heap (h : gmap loc (gmap string value)) (st : state) : state :=
  mkState h (sessions st) (clock st) (ticks st) (entropy st) (draws st) (logged st).

Definition set_sessions (m : option (gmap string loc)) (st : state) : state :=
  mkState (heap st) m (clock st) (ticks st) (entropy st) (draws st) (logged st).

(** The state of a process that has just started. *)
Definition initial (clk : nat → Z) (ent : nat → rand_reply) : state :=
  mkState ∅ None clk 0 ent 0 [].

(** The state of one request handler: the response, the request and the
    process state. *)
Record hstate : Type := mkH {
  hw : ResponseWriter;
  hr : Request;
  hg : state
}.

(** ** A state monad with panics *)

Inductive panic : Type :=
  | NilMapAssign
  | NilDereference
  | BadTypeAssert (wanted : string).

Inductive outcome (A : Type) : Type :=
  | Done (a : A)
  | Panicked (p : panic).
Arguments Done {A} a.
Arguments Panicked {A} p.

Definition M (S A : Type) : Type := S → outcome A * S.

Definition ret {S A} (a : A) : M S A := fun st => (Done a, st).

Definition bind {S A B} (m : M S A) (k : A → M S B) : M S B :=
  fun st =>
    match m st with
    | (Done a, st') => k a st'
    | (Panicked p, st') => (Panicked p, st')
    end.

Definition throw {S A} (p : panic) : M S A := fun st => (Panicked p, st).

Notation "'let!' x ':=' m 'in' k" := (bind m (fun x => k))
  (at level 10, x pattern, m at level 200, k at level 200).
Notation "'run' m 'in' k" := (bind m (fun _ => k))
  (at level 10, m at level 200, k at level 200).

(** Run a process-level action inside a request handler. *)
Definition lift {A} (m : M state A) : M hstate A :=
  fun h =>
    let '(o, g) := m (hg h) in (o, mkH (hw h) (hr h) g).

(** ** Go maps in the heap *)

(** The contents behind a session reference; a nil map reads as empty. *)
Definition deref (h : gmap loc (gmap string value)) (s : sref)
  : gmap string value :=
  match s with
  | None => ∅
  | Some l => default ∅ (h !! l)
  end.

(** [s[k]] as an expression: the nil interface when the key is missing. *)
Definition index (h : gmap loc (gmap string value)) (s : sref) (k : string)
  : value :=
  default VNil (deref h s !! k).

Definition heap_assign (l : loc) (k : string) (v : value)
    (h : gmap loc (gmap string value)) : gmap loc (gmap string value) :=
  <[l := <[k := v]> (default ∅ (h !! l))]> h.

(** [make(session)]: a new, empty, non-nil map. *)
Definition make_session : M state loc :=
  fun st =>
    let l := fresh (dom (heap st)) in
    (Done l, set_heap (<[l := ∅]> (heap st)) st).

(** [s[k] = v]; assigning into a nil map panics. *)
Definition map_assign (s : sref) (k : string) (v : value) : M state unit :=
  fun st =>
    match s with
    | None => (Panicked NilMapAssign, st)
    | Some l => (Done tt, set_heap (heap_assign l k v (heap st)) st)
    end.

Definition map_index (s : sref) (k : string) : M state value :=
  fun st => (Done (index (heap st) s k), st).

(** [sessions[id]]: nil when the registry is nil or has no such key. *)
Definition registry_index (id : string) : M state sref :=
  fun st =>
    (Done (match sessions st with
           | None => None
           | Some m => m !! id
           end), st).

(** [sessions[id] = s] for a session [s] that [make] returned; assigning
    into the nil registry panics. *)
Definition registry_assign (id : string) (l : loc) : M state unit :=
  fun st =>
    match sessions st with
    | None => (Panicked NilMapAssign, st)
    | Some m => (Done tt, set_sessions (Some (<[id := l]> m)) st)
    end.

(** [delete(sessions, id)]; a no-op on the nil map. *)
Definition registry_delete (id : string) : M state unit :=
  fun st =>
    (Done tt, set_sessions (delete id <$> sessions st) st).

(** [time.Now()] *)
Definition time_Now : M state Z :=
  fun st =>
    (Done (clock st (ticks st)),
     mkState (heap st) (sessions st) (clock st) (S (ticks st))
       (entropy st) (draws st) (logged st)).

(** [log.Printf] *)
Definition log_Printf (line : string) : M state unit :=
  fun st =>
    (Done tt,
     mkState (heap st) (sessions st) (clock st) (ticks st)
       (entropy st) (draws st) (logged st ++ [line])%list).

(** [v.(string)] and [v.(time.Time)] *)
Definition assert_string {S} (v : value) : M S string :=
  match v with
  | VString s => ret s
  | _ => throw (BadTypeAssert "string")
  end.

Definition assert_Time {S} (v : value) : M S Z :=
  match v with
  | VTime t => ret t
  | _ => throw (BadTypeAssert "time.Time")
  end.

Definition is_nil (v : value) : bool :=
  match v with
  | VNil => true
  | _ => false
  end.

Definition is_time (v : value) : bool :=
  match v with
  | VTime _ => true
  | _ => false
  end.

(** [err != nil] *)
Definition failed (err : option error) : bool :=
  match err with
  | Some _ => true
  | None => false
  end.

(** ** The session methods *)

Definition Id (s : sref) : M state string :=
  let! v := map_index s SESSIONID in
  if negb (is_nil v) then
    let! v' := map_index s SESSIONID in
    assert_string v'
  else ret "".

(** [clone]: a new map, filled key by key from [s]. *)
Definition clone (s : sref) : M state loc :=
  fun st =>
    let c := fresh (dom (heap st)) in
    let h0 := <[c := ∅]> (heap st) in
    (Done c,
     set_heap (map_fold (fun k v h => heap_assign c k v h) h0
                 (deref (heap st) s)) st).

Definition Save (s : sref) : M state unit :=
  let! id := Id s in
  let! c := clone s in
  registry_assign id c.

Definition expired (s : sref) : M state bool :=
  let! now := time_Now in
  let! v := map_index s LASTUSED in
  let! t := assert_Time v in
  ret (MAXSESSIONAGE <=? time_Sub now t).

(** ** The sweep *)

(** The line ["Session %s has expired, removing..."] formatted for [k]. *)
Definition expiry_line (k : string) : string :=
  "Session " ++ k ++ " has expired, removing...".

(** One iteration of the loop of [cleanupSessions] at key [k]. A key that
    is no longer in the map is not visited. *)
Definition cleanup_step (k : string) : M state unit :=
  let! s := registry_index k in
  match s with
  | None => ret tt
  | Some _ =>
      let! e := expired s in
      if e then
        run log_Printf (expiry_line k) in
        registry_delete k
      else ret tt
  end.

Fixpoint cleanup_loop (order : list string) : M state unit :=
  match order with
  | [] => ret tt
  | k :: rest => run cleanup_step k in cleanup_loop rest
  end.

(** [cleanupSessions]. Go leaves the order of a [range] over a map open:
    [order] is the order in which this run visits the keys. *)
Definition cleanupSessions (order : list string) : M state unit :=
  cleanup_loop order.

(** [order] is a possible visiting order for the registry of [st]. *)
Definition visits (order : list string) (st : state) : Prop :=
  NoDup order ∧
  ∀ k, k ∈ order ↔ ∃ m l, sessions st = Some m ∧ m !! k = Some l.

(** ** The identifier generator *)

Definition genId : M state (string * option error) :=
  fun st =>
    let uuid := replicate 16 x00 in
    let '(uuid, n, err) := rand_Read (entropy st (draws st)) uuid in
    let st' := mkState (heap st) (sessions st) (clock st) (ticks st)
                 (entropy st) (S (draws st)) (logged st) in
    if negb (n =? length uuid)%nat || failed err then
      (Done ("", err), st')
    else
      let uuid := <[8%nat := x80]> uuid in
      let uuid := <[4%nat := x40]> uuid in
      (Done (EncodeToString uuid, None), st').

(** ** The cookie binding and the exported operations *)

Definition read_cookie (name : string) : M hstate (option Cookie * option error) :=
  fun h => (Done (Request_Cookie (hr h) name), h).

Definition http_SetCookie (c : Cookie) : M hstate unit :=
  fun h => (Done tt, mkH (SetCookie (hw h) c) (hr h) (hg h)).

Definition add_cookie (c : Cookie) : M hstate unit :=
  fun h => (Done tt, mkH (hw h) (Request_AddCookie (hr h) c) (hg h)).

(** [e == http.ErrNoCookie] *)
Definition is_ErrNoCookie (e : option error) : bool :=
  match e with
  | Some e' => error_eqb e' ErrNoCookie
  | None => false
  end.

(** [cookie == nil] *)
Definition nil_cookie (c : option Cookie) : bool :=
  match c with
  | Some _ => false
  | None => true
  end.

Definition cookie_Value (c : option Cookie) : M hstate string :=
  match c with
  | Some c' => ret (Value c')
  | None => throw NilDereference
  end.

Definition requestSessionId : M hstate (string * option error) :=
  let! (cookie, e) := read_cookie SESSIONID in
  if failed e && negb (is_ErrNoCookie e) then ret ("", e)
  else if is_ErrNoCookie e || nil_cookie cookie then
    let! (id, e) := lift genId in
    if failed e then ret ("", e)
    else
      let cookie := mkCookie SESSIONID id "/" 0 in
      run http_SetCookie cookie in
      run add_cookie cookie in
      ret (Value cookie, None)
  else
    let! v := cookie_Value cookie in
    ret (v, None).

(** The part of [SessionFor] between taking and releasing the lock. *)
Definition SessionFor_locked (id : string) : M state (sref * option error) :=
  run (fun st =>
         match sessions st with
         | None => (Done tt, set_sessions (Some ∅) st)
         | Some _ => (Done tt, st)
         end) in
  let! s := registry_index id in
  let! s := match s with
            | None =>
                let! l := make_session in
                run map_assign (Some l) SESSIONID (VString id) in
                run registry_assign id l in
                ret (Some l)
            | Some _ => ret s
            end in
  let! now := time_Now in
  run map_assign s LASTUSED (VTime now) in
  let! c := clone s in
  ret (Some c, None).

Definition SessionFor : M hstate (sref * option error) :=
  let! (id, e) := requestSessionId in
  if failed e then ret (None, e)
  else lift (SessionFor_locked id).

Definition RemoveSession : M hstate unit :=
  let! (cookie, e) := read_cookie SESSIONID in
  if failed e then ret tt
  else
    let! v := cookie_Value cookie in
    run lift (registry_delete v) in
    match cookie with
    | Some c =>
        http_SetCookie (mkCookie (Name c) (Value c) (Path c) 0)
    | None => throw NilDereference
    end.

(** What a caller does to a session it holds: any change of the map behind
    the reference ([s[k] = v], [delete(s, k)], any number of times). *)
Definition caller_update (l : loc) (f : gmap string value → gmap string value)
    (st : state) : state :=
  set_heap (<[l := f (default ∅ (heap st !! l))]> (heap st)) st.

(** The identifier [genId] makes from sixteen random bytes. *)
Definition id_of_bytes (b : list byte) : string :=
  EncodeToString (<[4%nat := x40]> (<[8%nat := x80]> (take 16 b))).

(** The process state after one more answer of the random source was used. *)
Definition drawn (st : state) : state :=
  mkState (heap st) (sessions st) (clock st) (ticks st)
    (entropy st) (S (draws st)) (logged st).

(** ** The claim about the identifier layout, as the specification words it *)

Definition byte_of (n : N) : byte := default x00 (Byte.of_N n).

(** Byte 6 gets the high nibble 4 and byte 8 the high bits 10; every other
    bit is kept. *)
Definition rfc4122_mark (b : list byte) : list byte :=
  let b6 := default x00 (b !! 6%nat) in
  let b8 := default x00 (b !! 8%nat) in
  <[6%nat := byte_of (N.lor (N.land (Byte.to_N b6) 15) 64)]>
    (<[8%nat := byte_of (N.lor (N.land (Byte.to_N b8) 63) 128)]> b).

(** ** Calls and traces *)

Inductive call : Type :=
  | CallSessionFor (w : ResponseWriter) (r : Request)
  | CallRemoveSession (w : ResponseWriter) (r : Request)
  | CallSave (s : sref)
  | CallCleanup (order : list string)
  | CallUpdate (l : loc) (f : gmap string value → gmap string value).

Definition exec (c : call) (st : state) : state :=
  match c with
  | CallSessionFor w r => hg (SessionFor (mkH w r st)).2
  | CallRemoveSession w r => hg (RemoveSession (mkH w r st)).2
  | CallSave s => (Save s st).2
  | CallCleanup order => (cleanupSessions order st).2
  | CallUpdate l f => caller_update l f st
  end.

Definition is_SessionFor (c : call) : bool :=
  match c with
  | CallSessionFor _ _ => true
  | _ => false
  end.

Definition exec_all (cs : list call) (st : state) : state :=
  foldl (fun st c => exec c st) st cs.

(** [m] moves the process state along [R], whatever its outcome. *)
Definition preserved (R : relation state) {S A} (proj : S → state)
    (m : M S A) : Prop :=
  ∀ s, R (proj s) (proj (m s).2).

(** The clock and the random source are fixed, and readings are only ever
    consumed. *)
Definition later (st st' : state) : Prop :=
  clock st' = clock st ∧ entropy st' = entropy st ∧ (ticks st <= ticks st')%nat.

(** The registry stays nil if it was. *)
Definition still_nil (st st' : state) : Prop :=
  sessions st = None → sessions st' = None.

(** ** Observations on the registry *)

(** The record the registry holds for [id], if any. *)
Definition stored_record (st : state) (id : string)
  : option (gmap string value) :=
  match sessions st with
  | None => None
  | Some m =>
      match m !! id with
      | None => None
      | Some l => Some (deref (heap st) (Some l))
      end
  end.

(** The last-used value of the record the registry holds for [id]. *)
Definition last_used (st : state) (id : string) : value :=
  match stored_record st id with
  | Some rec => default VNil (rec !! LASTUSED)
  | None => VNil
  end.

(** The entry [SessionFor] works on for [id]: the one in the registry, or
    a new map holding the identifier; with the heap that contains it. *)
Definition entry_for (id : string) (st : state)
  : loc * gmap loc (gmap string value) :=
  match default ∅ (sessions st) !! id with
  | Some l => (l, heap st)
  | None =>
      let l := fresh (dom (heap st)) in
      (l, <[l := {[ SESSIONID := VString id ]}]> (heap st))
  end.

(** Nothing but the count of used random answers differs. *)
Definition only_drawn (st st' : state) : Prop :=
  heap st' = heap st ∧ sessions st' = sessions st ∧ clock st' = clock st ∧
  ticks st' = ticks st ∧ entropy st' = entropy st ∧ logged st' = logged st.

(** ** Concrete inputs used in examples *)

(** A clock that advances one second per reading. *)
Definition seconds_clock (n : nat) : Z := Z.of_nat n * Second.

(** A random source that always delivers sixteen bytes [0xff]. *)
Definition ones_source (n : nat) : rand_reply := mkReply (replicate 16 xff) None.

(** A random source that always fails after eight bytes. *)
Definition broken_source (n : nat) : rand_reply :=
  mkReply (replicate 8 xff) (Some (ErrOther "unexpected EOF")).

Definition no_cookies : Request := mkRequest [] None.

Definition bad_header : Request :=
  mkRequest [mkCookie SESSIONID "abc123" "" 0] (Some "malformed header").

(** An initialised, empty registry and one caller-made record that has no
    identifier key. *)
Definition anonymous_state : state :=
  mkState {[ 1%positive := {[ "LoggedUser" := VOther "bob" ]} ]} (Some ∅)
    seconds_clock 0 ones_source 0 [].

(** A registry with one record last used thirty minutes and one second
    before the hour and one last used twenty-nine minutes before it, under
    a clock that reads the full hour. *)
Definition sweep_state : state :=
  mkState
    {[ 1%positive := {[ SESSIONID := VString "old"; LASTUSED := VTime (1799 * Second) ]};
       2%positive := {[ SESSIONID := VString "young"; LASTUSED := VTime (1860 * Second) ]} ]}
    (Some {[ "old" := 1%positive; "young" := 2%positive ]})
    (fun _ => 3600 * Second) 0 ones_source 0 [].

(** A registry holding a record for "abc123", and a record with the same
    identifier and another payload in the hands of a caller. *)
Definition login_state : state :=
  mkState
    {[ 1%positive := {[ SESSIONID := VString "abc123"; LASTUSED := VTime 0;
                        "Draft" := VOther "form" ]};
       2%positive := {[ SESSIONID := VString "abc123"; LASTUSED := VTime 0;
                        "LoggedUser" := VOther "bob" ]} ]}
    (Some {[ "abc123" := 1%positive ]})
    seconds_clock 5 ones_source 0 [].

(** ** Reading an identifier back *)

(** The position of a digit in [hextable]; sixteen for any other character. *)
Fixpoint hexval_in (table : string) (c : ascii) : N :=
  match table with
  | EmptyString => 0
  | String d rest => if Ascii.eqb c d then 0 else N.succ (hexval_in rest c)
  end.

Definition hexval (c : ascii) : N := hexval_in hextable c.

(** The byte written as the two digits [hi], [lo]. *)
Definition byte_of_digits (hi lo : ascii) : byte :=
  byte_of (16 * hexval hi + hexval lo).

(** The characters of a string. *)
Fixpoint chars (s : string) : list ascii :=
  match s with
  | EmptyString => []
  | String c rest => c :: chars rest
  end.

(** A random source whose sixteen bytes differ from those of [ones_source]
    at positions 4 and 8 only. *)
Definition mixed_source (n : nat) : rand_reply :=
  mkReply (<[4%nat := x12]> (<[8%nat := x34]> (replicate 16 xff))) None.

(** A request that carries the session cookie "abc123". *)
Definition returning_request : Request :=
  mkRequest [mkCookie "lang" "en" "" 0; mkCookie SESSIONID "abc123" "" 0] None.

(** ** The invariant of the registry *)

(** Every entry of the registry refers to a map of the heap that holds the
    entry's own key under the identifier key and a time under the
    last-used key. *)
Definition registry_inv (st : state) : Prop :=
  ∀ m id l,
    sessions st = Some m → m !! id = Some l →
    ∃ rec t,
      heap st !! l = Some rec ∧
      rec !! SESSIONID = Some (VString id) ∧
      rec !! LASTUSED = Some (VTime t).

(** [l] is one of the maps the registry refers to. *)
Definition registry_loc (st : state) (l : loc) : Prop :=
  ∃ m id, sessions st = Some m ∧ m !! id = Some l.

(** What the package expects of its callers: a record is saved with a
    string under the identifier key and a time under the last-used key,
    and a caller changes only maps it holds, never one of the registry. *)
Definition well_behaved (st : state) (c : call) : Prop :=
  match c with
  | CallSave s =>
      ∃ id t, index (heap st) s SESSIONID = VString id ∧
              index (heap st) s LASTUSED = VTime t
  | CallUpdate l _ => ¬ registry_loc st l
  | _ => True
  end.

Fixpoint well_behaved_trace (cs : list call) (st : state) : Prop :=
  match cs with
  | [] => True
  | c :: rest => well_behaved st c ∧ well_behaved_trace rest (exec c st)
  end.

(** A registry whose record "broken" has lost its last-used time. *)
Definition untimed_state : state :=
  mkState
    {[ 1%positive := {[ SESSIONID := VString "old"; LASTUSED := VTime (1799 * Second) ]};
       2%positive := {[ SESSIONID := VString "broken"; LASTUSED := VString "yesterday" ]} ]}
    (Some {[ "old" := 1%positive; "broken" := 2%positive ]})
    (fun _ => 3600 * Second) 0 ones_source 0 [].

(** The state after one more reading of the clock. *)
Definition ticked (st : state) : state :=
  mkState (heap st) (sessions st) (clock st) (S (ticks st))
    (entropy st) (draws st) (logged st).

(** ** Helpers of the web layer (ui.go) *)

(** A Go [int] on a 64-bit platform: arithmetic wraps around. *)
Definition int_wrap (z : Z) : Z := (z + 2 ^ 63) mod 2 ^ 64 - 2 ^ 63.

Definition maxInt : Z := 2 ^ 63 - 1.
Definition minInt : Z := - 2 ^ 63.

(** The result of a function that indexes a slice. *)
Inductive slice_result : Type :=
  | Returned (s : string)
  | IndexOutOfRange.

(** [sa[index]]: a run-time panic outside [0 <= index < len(sa)]. *)
Definition slice_index (l : list string) (index : Z) : slice_result :=
  if (0 <=? index) && (index <? Z.of_nat (length l)) then
    Returned (default "" (l !! Z.to_nat index))
  else IndexOutOfRange.

(** [indexOf]; a slice is nil ([None]) or has elements, possibly none. *)
Definition indexOf (sa : option (list string)) (index : Z) : slice_result :=
  match sa with
  | None => Returned ""
  | Some l =>
      if Z.of_nat (length l) <? int_wrap (index + 1) then Returned ""
      else slice_index l index
  end.

(** [strings.HasSuffix]: [len(s) >= len(suffix)] and the tail of [s] of
    that length equals [suffix]. *)
Definition HasSuffix (s suffix : string) : bool :=
  (String.length suffix <=? String.length s)%nat &&
  String.eqb
    (String.substring (String.length s - String.length suffix)
       (String.length suffix) s)
    suffix.

(** What the handler of [certServer] does for a request path, before the
    file server takes over: not found, or the two headers it sets. *)
Inductive cert_reply : Type :=
  | NotFound
  | Download (content_disposition content_type : string).

Definition certServer (path : string) : cert_reply :=
  if negb (HasSuffix path ".key.pem") && negb (HasSuffix path ".pem") then
    NotFound
  else
    Download ("attachment; filename=" ++ path) "application/x-pem-file".

(** ** The access control of the web layer (ui.go) *)

Definition REQUEST : string := "Request".
Definition LOGGEDUSER : string := "LoggedUser".

(** A value of a [PageStatus]: the request, or a value like those of a
    session. *)
Inductive page_value : Type :=
  | PRequest (r : Request)
  | PValue (v : value).

(** What a handler puts out besides cookies: a template executed on the
    response, an error answer, a line on the standard error stream. *)
Inductive output : Type :=
  | Rendered (name : string) (ps : gmap string page_value)
  | HttpError (msg : string) (code : Z)
  | StderrLine (line : string).

(** The state a handler of the web layer works on: the handler state of
    the session layer, the package variable [fakedLogin], the failure (if
    any) each execution of a template will report, and the output so
    far. *)
Record page : Type := mkPage {
  ph : hstate;
  fakedLogin : bool;
  template_failure : string → gmap string page_value → option error;
  out : list output
}.

Definition set_ph (h : hstate) (pg : page) : page :=
  mkPage h (fakedLogin pg) (template_failure pg) (out pg).

Definition emit (o : output) : M page unit :=
  fun pg =>
    (Done tt,
     mkPage (ph pg) (fakedLogin pg) (template_failure pg) (out pg ++ [o])%list).

(** Run an action of the session layer inside a handler of the web layer. *)
Definition lift_page {A} (m : M hstate A) : M page A :=
  fun pg => let '(o, h) := m (ph pg) in (o, set_ph h pg).

(** [err.Error()] *)
Definition error_text (e : error) : string :=
  match e with
  | ErrNoCookie => "http: named cookie not present"
  | ErrOther msg => msg
  end.

(** [handleError] *)
Definition handleError (err : option error) : M page bool :=
  match err with
  | Some e =>
      run emit (StderrLine (error_text e)) in
      run emit (HttpError (error_text e) 500) in
      ret true
  | None => ret false
  end.

(** [newPageStatus] *)
Definition newPageStatus (r : Request) : gmap string page_value :=
  {[ REQUEST := PRequest r ]}.

(** [templates.ExecuteTemplate(w, name, ps)] *)
Definition ExecuteTemplate (name : string) (ps : gmap string page_value)
  : M page (option error) :=
  fun pg =>
    (Done (template_failure pg name ps),
     mkPage (ph pg) (fakedLogin pg) (template_failure pg)
       (out pg ++ [Rendered name ps])%list).

(** The user of a faked login, [User{"fuser", "Faked User", "****",
    "fuser@fuser.com"}], as an opaque session value. *)
Definition faked_user : value :=
  VOther "User{fuser Faked User **** fuser@fuser.com}".

(** [accessControlHandler(h)], applied to a request; [h] is the handler it
    guards. *)
Definition accessControlHandler (h : M page unit) : M page unit :=
  let! (s, err) := lift_page SessionFor in
  let! stop := handleError err in
  if stop then ret tt
  else
    let! user := lift_page (lift (map_index s LOGGEDUSER)) in
    if is_nil user then
      fun pg =>
        (if fakedLogin pg then
           run lift_page (lift (map_assign s LOGGEDUSER faked_user)) in
           run lift_page (lift (Save s)) in
           h
         else
           let ps := newPageStatus (hr (ph pg)) in
           let! id := lift_page (lift (Id s)) in
           let ps := <[SESSIONID := PValue (VString id)]> ps in
           let! err := ExecuteTemplate "login" ps in
           run handleError err in
           ret tt) pg
    else h.

(** The user the registry holds for an identifier; nil if there is no
    record or the record has no user. *)
Definition registered_user (st : state) (id : string) : value :=
  match stored_record st id with
  | Some rec => default VNil (rec !! LOGGEDUSER)
  | None => VNil
  end.

(** The registry of [login_state] after the caller's record, which has a
    logged user, was saved. *)
Definition member_state : state := (Save (Some 2%positive) login_state).2.

(** A handler that answers with one line. *)
Definition hello : M page unit := emit (StderrLine "served").

Definition no_failure (name : string) (ps : gmap string page_value)
  : option error := None.

(** * Properties *)

(** ** Basic facts about the primitives *)

Lemma time_Sub_ge (now t : Z) :
  MAXSESSIONAGE <= time_Sub now t ↔ MAXSESSIONAGE <= now - t.
Proof.
  unfold time_Sub, MAXSESSIONAGE, Minute, Second, minDuration, maxDuration.
  cbv zeta.
  destruct (Z.ltb_spec (now - t) (- 2 ^ 63)) as [Hlo | Hlo].
  - lia.
  - destruct (Z.ltb_spec (2 ^ 63 - 1) (now - t)) as [Hhi | Hhi]; lia.
Qed.

Lemma clone_eq (s : sref) (st : state) :
  clone s st =
  (Done (fresh (dom (heap st))),
   set_heap (<[fresh (dom (heap st)) := deref (heap st) s]> (heap st)) st).
Proof.
  unfold clone. do 2 f_equal.
  set (c := fresh (dom (heap st))).
  generalize (deref (heap st) s) as m. intros m.
  apply (map_fold_weak_ind
           (fun r m' => r = <[c := m']> (heap st))
           (fun k v h => heap_assign c k v h)).
  - reflexivity.
  - intros k v m' r _ ->. unfold heap_assign.
    rewrite lookup_insert_eq. simpl. by rewrite insert_insert_eq.
Qed.

Lemma fresh_heap (h : gmap loc (gmap string value)) : h !! fresh (dom h) = None.
Proof. apply not_elem_of_dom. apply is_fresh. Qed.

Lemma Id_eq (s : sref) (st : state) :
  Id s st =
  match index (heap st) s SESSIONID with
  | VNil => (Done "", st)
  | VString id => (Done id, st)
  | _ => (Panicked (BadTypeAssert "string"), st)
  end.
Proof.
  unfold Id, bind, map_index.
  destruct (index (heap st) s SESSIONID) eqn:E; simpl; rewrite ?E; reflexivity.
Qed.

(** ** Every operation keeps the oracles and only consumes readings *)

Section Preserved.
Context (R : relation state) `{!PreOrder R}.

Lemma preserved_ret {S A} (proj : S → state) (a : A) :
  preserved R proj (ret a).
Proof. intros s. simpl. reflexivity. Qed.

Lemma preserved_throw {S A} (proj : S → state) (p : panic) :
  preserved R proj (throw p : M S A).
Proof. intros s. simpl. reflexivity. Qed.

Lemma preserved_bind {S A B} (proj : S → state) (m : M S A) (k : A → M S B) :
  preserved R proj m → (∀ a, preserved R proj (k a)) → preserved R proj (bind m k).
Proof.
  intros Hm Hk s. unfold bind. specialize (Hm s).
  destruct (m s) as [[a | p] s']; simpl in *.
  - etransitivity; [exact Hm | apply Hk].
  - exact Hm.
Qed.

Lemma preserved_lift {A} (m : M state A) :
  preserved R id m → preserved R hg (lift m).
Proof.
  intros Hm h. unfold lift. specialize (Hm (hg h)).
  destruct (m (hg h)) as [o g]. exact Hm.
Qed.

Lemma preserved_same {S A} (proj : S → state) (m : M S A) :
  (∀ s, proj (m s).2 = proj s) → preserved R proj m.
Proof. intros H s. rewrite H. reflexivity. Qed.
End Preserved.

#[local] Instance later_preorder : PreOrder later.
Proof.
  split.
  - intros st. unfold later. auto.
  - intros a b c (H1 & H2 & H3) (H4 & H5 & H6). unfold later.
    repeat split; try congruence. lia.
Qed.

#[local] Instance still_nil_preorder : PreOrder still_nil.
Proof.
  split.
  - intros st H. exact H.
  - intros a b c H1 H2 H. auto.
Qed.

Create HintDb preserved.

Section Primitives.
Context (R : relation state) `{!PreOrder R}.
(** The two ways a primitive can change the state without leaving [R]. *)
Hypothesis R_heap : ∀ h st, R st (set_heap h st).
Hypothesis R_log : ∀ st line,
  R st (mkState (heap st) (sessions st) (clock st) (ticks st)
          (entropy st) (draws st) (logged st ++ [line])%list).

Hypothesis R_tick : ∀ st,
  R st (mkState (heap st) (sessions st) (clock st) (S (ticks st))
          (entropy st) (draws st) (logged st)).
Hypothesis R_draw : ∀ st,
  R st (mkState (heap st) (sessions st) (clock st) (ticks st)
          (entropy st) (S (draws st)) (logged st)).
Hypothesis R_assign : ∀ st m id l,
  sessions st = Some m → R st (set_sessions (Some (<[id := l]> m)) st).
Hypothesis R_delete : ∀ st id,
  R st (set_sessions (delete id <$> sessions st) st).

Lemma map_index_preserved s k : preserved R id (map_index s k).
Proof. apply preserved_same; auto. Qed.

Lemma registry_index_preserved k : preserved R id (registry_index k).
Proof. apply preserved_same; auto. Qed.

Lemma make_session_preserved : preserved R id make_session.
Proof. intros st. apply R_heap. Qed.

Lemma map_assign_preserved s k v : preserved R id (map_assign s k v).
Proof.
  intros st. unfold map_assign. destruct s; simpl.
  - apply R_heap.
  - reflexivity.
Qed.

Lemma clone_preserved s : preserved R id (clone s).
Proof. intros st. rewrite clone_eq. apply R_heap. Qed.

Lemma log_Printf_preserved line : preserved R id (log_Printf line).
Proof. intros st. apply R_log. Qed.

Lemma Id_preserved s : preserved R id (Id s).
Proof.
  apply preserved_same; auto. intros st. rewrite Id_eq.
  destruct (index (heap st) s SESSIONID); reflexivity.
Qed.

Lemma assert_Time_preserved v : preserved R id (assert_Time v).
Proof. apply preserved_same; auto. intros st. destruct v; reflexivity. Qed.

Lemma registry_assign_preserved sid l : preserved R id (registry_assign sid l).
Proof.
  intros st. unfold registry_assign.
  destruct (sessions st) eqn:E; simpl.
  - by apply R_assign.
  - reflexivity.
Qed.

Lemma registry_delete_preserved k : preserved R id (registry_delete k).
Proof. intros st. apply R_delete. Qed.

Lemma time_Now_preserved : preserved R id time_Now.
Proof. intros st. apply R_tick. Qed.

Lemma genId_preserved : preserved R id genId.
Proof.
  intros st. unfold genId.
  destruct (rand_Read _ _) as [[uuid n] err].
  destruct (_ || _); apply R_draw.
Qed.

Lemma read_cookie_preserved name : preserved R hg (read_cookie name).
Proof. apply preserved_same; auto. Qed.

Lemma http_SetCookie_preserved c : preserved R hg (http_SetCookie c).
Proof. apply preserved_same; auto. Qed.

Lemma add_cookie_preserved c : preserved R hg (add_cookie c).
Proof. apply preserved_same; auto. Qed.

Lemma cookie_Value_preserved c : preserved R hg (cookie_Value c).
Proof. apply preserved_same; auto. intros h. destruct c; reflexivity. Qed.

Hint Resolve read_cookie_preserved http_SetCookie_preserved
  add_cookie_preserved cookie_Value_preserved : preserved.

Hint Resolve map_index_preserved registry_index_preserved
  make_session_preserved map_assign_preserved clone_preserved
  log_Printf_preserved Id_preserved assert_Time_preserved
  registry_assign_preserved registry_delete_preserved time_Now_preserved
  genId_preserved : preserved.

Ltac step_preserved :=
  first
    [ solve [eauto with preserved]
    | apply preserved_ret; assumption
    | apply preserved_throw; assumption
    | apply preserved_lift; try assumption
    | apply preserved_bind; [assumption | | intros ?]
    | match goal with
      | |- preserved _ _ (match ?x with _ => _ end) => destruct x
      | |- preserved _ _ (if ?x then _ else _) => destruct x
      end ].

Lemma Save_preserved s : preserved R id (Save s).
Proof. unfold Save. repeat step_preserved. Qed.

Lemma expired_preserved s : preserved R id (expired s).
Proof. unfold expired. repeat step_preserved. Qed.

Lemma cleanupSessions_preserved order : preserved R id (cleanupSessions order).
Proof.
  unfold cleanupSessions.
  induction order as [| k rest IH]; simpl.
  - step_preserved.
  - apply preserved_bind; [assumption | | intros _; exact IH].
    unfold cleanup_step. pose proof (expired_preserved).
    repeat step_preserved.
Qed.

Lemma requestSessionId_preserved : preserved R hg requestSessionId.
Proof.
  unfold requestSessionId. repeat step_preserved.
Qed.

Lemma RemoveSession_preserved : preserved R hg RemoveSession.
Proof.
  unfold RemoveSession. repeat step_preserved.
Qed.

Hypothesis R_init : ∀ st,
  sessions st = None → R st (set_sessions (Some ∅) st).

Lemma SessionFor_preserved : preserved R hg SessionFor.
Proof.
  unfold SessionFor. pose proof requestSessionId_preserved.
  apply preserved_bind; [assumption | assumption | intros [sid e]].
  destruct (failed e); [step_preserved |].
  apply preserved_lift; try assumption.
  unfold SessionFor_locked.
  apply preserved_bind; [assumption | | intros _].
  { intros st. destruct (sessions st) eqn:E; simpl; [reflexivity | by apply R_init]. }
  repeat step_preserved.
Qed.
End Primitives.

Ltac solve_later :=
  intros; unfold later, set_heap, set_sessions; simpl; auto.

Ltac solve_still_nil :=
  intros; unfold still_nil, set_heap, set_sessions; simpl;
  try congruence; auto;
  try (intros ->; reflexivity).

Lemma exec_later (c : call) (st : state) : later st (exec c st).
Proof.
  destruct c as [w r | w r | s | order | l f]; simpl.
  - apply (SessionFor_preserved later) with (s := mkH w r st); solve_later.
  - apply (RemoveSession_preserved later) with (s := mkH w r st); solve_later.
  - apply (Save_preserved later); solve_later.
  - apply (cleanupSessions_preserved later); solve_later.
  - solve_later.
Qed.

Lemma exec_still_nil (c : call) (st : state) :
  is_SessionFor c = false → still_nil st (exec c st).
Proof.
  destruct c as [w r | w r | s | order | l f]; simpl; intros Hc.
  - discriminate.
  - apply (RemoveSession_preserved still_nil) with (s := mkH w r st);
      solve_still_nil.
  - apply (Save_preserved still_nil); solve_still_nil.
  - apply (cleanupSessions_preserved still_nil); solve_still_nil.
  - solve_still_nil.
Qed.

Lemma exec_all_later (cs : list call) (st : state) : later st (exec_all cs st).
Proof.
  revert st. induction cs as [| c cs IH]; intros st; simpl.
  - reflexivity.
  - etransitivity; [apply exec_later | apply IH].
Qed.

Lemma exec_all_still_nil (cs : list call) (st : state) :
  forallb (fun c => negb (is_SessionFor c)) cs = true →
  sessions st = None → sessions (exec_all cs st) = None.
Proof.
  revert st. induction cs as [| c cs IH]; intros st; simpl.
  - auto.
  - intros [Hc Hcs]%andb_prop Hnil.
    apply IH; [exact Hcs |].
    apply exec_still_nil; [| exact Hnil].
    by destruct (is_SessionFor c).
Qed.

(** ** Save *)

Lemma Save_eq (s : sref) (st : state) :
  Save s st =
  let c := fresh (dom (heap st)) in
  let st1 := set_heap (<[c := deref (heap st) s]> (heap st)) st in
  let store id :=
    match sessions st with
    | None => (Panicked NilMapAssign, st1)
    | Some m => (Done tt, set_sessions (Some (<[id := c]> m)) st1)
    end in
  match index (heap st) s SESSIONID with
  | VNil => store ""
  | VString id => store id
  | _ => (Panicked (BadTypeAssert "string"), st)
  end.
Proof.
  unfold Save. unfold bind at 1. rewrite Id_eq.
  destruct (index (heap st) s SESSIONID); try reflexivity;
    unfold bind; rewrite clone_eq; unfold registry_assign; simpl;
    destruct (sessions st); reflexivity.
Qed.

(** C1, as the code has it: a record without identifier key is saved
    without any failure, under the empty identifier. With an initialised
    registry [Save] returns normally and the registry gains (or replaces)
    the entry for the empty string, which refers to a new copy of the
    record. *)
Theorem Save_without_identifier (s : sref) (st : state) (m : gmap string loc) :
  sessions st = Some m →
  index (heap st) s SESSIONID = VNil →
  let c := fresh (dom (heap st)) in
  Id s st = (Done "", st) ∧
  Save s st =
    (Done tt,
     set_sessions (Some (<["" := c]> m))
       (set_heap (<[c := deref (heap st) s]> (heap st)) st)) ∧
  heap st !! c = None.
Proof.
  intros Hm Hid c. split; [| split].
  - rewrite Id_eq, Hid. reflexivity.
  - rewrite Save_eq, Hid. simpl. rewrite Hm. reflexivity.
  - apply fresh_heap.
Qed.

Lemma Save_without_identifier_witness :
  Id (Some 1%positive) anonymous_state = (Done "", anonymous_state) ∧
  (Save (Some 1%positive) anonymous_state).1 = Done tt ∧
  heap anonymous_state !! fresh (dom (heap anonymous_state)) = None.
Proof.
  destruct (Save_without_identifier (Some 1%positive) anonymous_state ∅)
    as (H1 & H2 & H3).
  - reflexivity.
  - reflexivity.
  - split; [exact H1 |]. split; [| exact H3]. rewrite H2. reflexivity.
Defined.

(** C1 as stated fails: this record has no identifier key, yet [Save]
    returns normally and the registry has a new entry afterwards. *)
Lemma Save_without_identifier_is_stored :
  index (heap anonymous_state) (Some 1%positive) SESSIONID = VNil ∧
  (Id (Some 1%positive) anonymous_state).1 = Done "" ∧
  (Save (Some 1%positive) anonymous_state).1 = Done tt ∧
  sessions anonymous_state = Some ∅ ∧
  sessions (Save (Some 1%positive) anonymous_state).2
    = Some {[ "" := 2%positive ]} ∧
  heap (Save (Some 1%positive) anonymous_state).2 !! 2%positive
    = Some {[ "LoggedUser" := VOther "bob" ]}.
Proof. vm_compute. repeat split. Qed.

(** C10: as long as no call of [SessionFor] has happened since the process
    started, the registry is the nil map and [Save] panics on every
    record without touching the registry; when the identifier lookup
    itself succeeds, the panic is the assignment into the nil map. *)
Theorem Save_before_first_SessionFor_panics
    (clk : nat → Z) (ent : nat → rand_reply) (cs : list call) (s : sref) :
  forallb (fun c => negb (is_SessionFor c)) cs = true →
  let st := exec_all cs (initial clk ent) in
  sessions st = None ∧
  ∃ p st',
    Save s st = (Panicked p, st') ∧
    sessions st' = None ∧
    (∀ id, (Id s st).1 = Done id → p = NilMapAssign).
Proof.
  intros Hcs st.
  assert (Hnil : sessions st = None) by (by apply exec_all_still_nil).
  split; [exact Hnil |].
  rewrite Save_eq, Id_eq. simpl. rewrite Hnil.
  destruct (index (heap st) s SESSIONID); simpl; eauto 10.
  all: eexists _, _; (split; [reflexivity |]); split; [exact Hnil |];
    intros id Hid; discriminate.
Qed.

Lemma Save_before_first_SessionFor_panics_witness :
  ∃ p st',
    Save None
      (exec_all [CallCleanup []; CallRemoveSession [] no_cookies; CallSave None]
         (initial seconds_clock ones_source)) = (Panicked p, st') ∧
    sessions st' = None.
Proof.
  destruct (Save_before_first_SessionFor_panics seconds_clock ones_source
              [CallCleanup []; CallRemoveSession [] no_cookies; CallSave None]
              None eq_refl) as (_ & p & st' & H1 & H2 & _).
  exists p, st'. split; [exact H1 | exact H2].
Defined.

(** ** RemoveSession *)

(** C9: when reading the session cookie gives an error, whichever it is,
    [RemoveSession] returns normally and leaves the response, the request
    and the whole process state as they were. *)
Theorem RemoveSession_cookie_error_noop (h : hstate) (e : error) :
  (Request_Cookie (hr h) SESSIONID).2 = Some e →
  RemoveSession h = (Done tt, h).
Proof.
  intros He. unfold RemoveSession, bind, read_cookie.
  destruct (Request_Cookie (hr h) SESSIONID) as [c e'].
  simpl in He. subst e'. reflexivity.
Qed.

Lemma RemoveSession_cookie_error_noop_witness :
  RemoveSession (mkH [] bad_header anonymous_state)
    = (Done tt, mkH [] bad_header anonymous_state) ∧
  RemoveSession (mkH [] no_cookies anonymous_state)
    = (Done tt, mkH [] no_cookies anonymous_state).
Proof.
  split.
  - apply (RemoveSession_cookie_error_noop
             (mkH [] bad_header anonymous_state) (ErrOther "malformed header")).
    reflexivity.
  - apply (RemoveSession_cookie_error_noop
             (mkH [] no_cookies anonymous_state) ErrNoCookie).
    reflexivity.
Defined.

(** ** The identifier generator *)

Lemma rand_Read_length (rep : rand_reply) (b : list byte) :
  length (rand_Read rep b).1.1 = length b.
Proof.
  unfold rand_Read, delivered. simpl.
  rewrite length_app, length_take, length_drop. lia.
Qed.

Lemma genId_eq (st : state) :
  genId st =
  let rep := entropy st (draws st) in
  if negb (delivered rep 16 =? 16)%nat || failed (rr_err rep)
  then (Done ("", rr_err rep), drawn st)
  else (Done (id_of_bytes (rr_bytes rep), None), drawn st).
Proof.
  unfold genId. cbv zeta.
  pose proof (rand_Read_length (entropy st (draws st)) (replicate 16 x00)) as Hlen.
  destruct (rand_Read (entropy st (draws st)) (replicate 16 x00))
    as [[uuid n] err] eqn:Hread.
  unfold rand_Read in Hread. injection Hread as Huuid Hn Herr.
  simpl in Hlen. rewrite Hlen. subst err.
  change (length (replicate 16 x00)) with 16%nat in *. fold (drawn st).
  rewrite <- Hn.
  destruct (Nat.eqb_spec (delivered (entropy st (draws st)) 16) 16) as [Hd | Hd];
    simpl; [| reflexivity].
  destruct (failed _); [reflexivity |].
  unfold id_of_bytes. rewrite <- Huuid, Hd.
  change (drop 16 (replicate 16 x00)) with (@nil byte).
  rewrite app_nil_r. reflexivity.
Qed.

Lemma genId_success (st : state) :
  delivered (entropy st (draws st)) 16 = 16%nat →
  rr_err (entropy st (draws st)) = None →
  genId st = (Done (id_of_bytes (rr_bytes (entropy st (draws st))), None), drawn st).
Proof.
  intros Hn He. rewrite genId_eq. cbv zeta. rewrite Hn, He. reflexivity.
Qed.

Lemma genId_fails (st : state) :
  delivered (entropy st (draws st)) 16 ≠ 16%nat ∨
    rr_err (entropy st (draws st)) ≠ None →
  genId st = (Done ("", rr_err (entropy st (draws st))), drawn st).
Proof.
  intros H. rewrite genId_eq. cbv zeta.
  destruct (Nat.eqb_spec (delivered (entropy st (draws st)) 16) 16) as [Hn | Hn];
    simpl; [| reflexivity].
  destruct (rr_err (entropy st (draws st))); simpl; [reflexivity |].
  destruct H; congruence.
Qed.

(** C5, evaluated where it fails: from sixteen bytes [0xff] the generator
    makes an identifier whose bytes 4 and 8 are [0x40] and [0x80] as a
    whole, and whose byte 6 is the untouched [0xff]; marking byte 6 and
    byte 8 the way the claim describes gives another string. *)
Theorem genId_overwrites_bytes_4_and_8 :
  (genId (initial seconds_clock ones_source)).1
    = Done ("ffffffff40ffffff80ffffffffffffff", None) ∧
  EncodeToString (rfc4122_mark (replicate 16 xff))
    = "ffffffffffff4fffbfffffffffffffff" ∧
  id_of_bytes (replicate 16 xff)
    ≠ EncodeToString (rfc4122_mark (replicate 16 xff)).
Proof.
  split; [reflexivity | split; [reflexivity |]].
  vm_compute. discriminate.
Qed.

(** C6: when the random source fills fewer than sixteen bytes or reports
    an error, [genId] returns the empty string, never an identifier,
    together with the error of the source; under the contract of
    [crypto/rand.Read] that error is not nil. A request without session
    cookie then gets the error and no identifier from the cookie binding
    and from [SessionFor]: no cookie is written, the request is unchanged
    and so is the registry. *)
Theorem genId_failure_is_reported (st : state) :
  let rep := entropy st (draws st) in
  delivered rep 16 ≠ 16%nat ∨ rr_err rep ≠ None →
  genId st = (Done ("", rr_err rep), drawn st) ∧
  (rand_contract rep 16 →
   ∃ e,
     rr_err rep = Some e ∧
     genId st = (Done ("", Some e), drawn st) ∧
     ∀ w r,
       Request_Cookie r SESSIONID = (None, Some ErrNoCookie) →
       requestSessionId (mkH w r st) = (Done ("", Some e), mkH w r (drawn st)) ∧
       SessionFor (mkH w r st) = (Done (None, Some e), mkH w r (drawn st))).
Proof.
  intros rep Hfail.
  pose proof (genId_fails st Hfail) as Hgen0. fold rep in Hgen0.
  split; [exact Hgen0 |]. intros Hcontract.
  assert (He : ∃ e, rr_err rep = Some e).
  { destruct (rr_err rep) as [e |] eqn:E; [eauto |].
    exfalso. destruct Hfail as [Hn | Hn]; [| congruence].
    apply Hn, Hcontract. exact E. }
  destruct He as [e He]. exists e. split; [exact He |].
  assert (Hgen : genId st = (Done ("", Some e), drawn st))
    by (by rewrite Hgen0, He).
  split; [exact Hgen |].
  intros w r Hr.
  assert (Hreq : requestSessionId (mkH w r st)
                 = (Done ("", Some e), mkH w r (drawn st))).
  { unfold requestSessionId, bind, read_cookie, lift. simpl.
    rewrite Hr. simpl. rewrite Hgen. reflexivity. }
  split; [exact Hreq |].
  unfold SessionFor, bind. rewrite Hreq. reflexivity.
Qed.

Lemma genId_failure_is_reported_witness :
  ∃ e,
    rr_err (broken_source 0) = Some e ∧
    genId (initial seconds_clock broken_source)
      = (Done ("", Some e), drawn (initial seconds_clock broken_source)) ∧
    SessionFor (mkH [] no_cookies (initial seconds_clock broken_source))
      = (Done (None, Some e),
         mkH [] no_cookies (drawn (initial seconds_clock broken_source))).
Proof.
  destruct (genId_failure_is_reported (initial seconds_clock broken_source))
    as (_ & H).
  - left. vm_compute. lia.
  - destruct H as (e & H1 & H2 & H3).
    + vm_compute. split; intros H; discriminate H.
    + exists e. split; [exact H1 | split; [exact H2 |]].
      apply (H3 [] no_cookies). reflexivity.
Defined.

(** ** The cookie binding *)

Lemma find_app_last {A} (f : A → bool) (l : list A) (x : A) :
  List.find f l = None → f x = true → List.find f (l ++ [x]) = Some x.
Proof.
  intros Hl Hx. induction l as [| a l IH]; simpl in *.
  - by rewrite Hx.
  - destruct (f a); [discriminate | by apply IH].
Qed.

Lemma no_cookie_inv (r : Request) (name : string) :
  Request_Cookie r name = (None, Some ErrNoCookie) →
  req_fault r = None ∧
  List.find (fun c => String.eqb (Name c) name) (req_cookies r) = None.
Proof.
  unfold Request_Cookie. intros H.
  destruct (req_fault r) as [msg |]; [discriminate |].
  destruct (List.find _ _); [discriminate | done].
Qed.

Lemma Cookie_after_AddCookie (r : Request) (c : Cookie) :
  Request_Cookie r (Name c) = (None, Some ErrNoCookie) →
  Request_Cookie (Request_AddCookie r c) (Name c)
    = (Some (mkCookie (Name c) (Value c) "" 0), None).
Proof.
  intros [Hfault Hfind]%no_cookie_inv.
  unfold Request_Cookie, Request_AddCookie. simpl. rewrite Hfault.
  rewrite (find_app_last _ _ (mkCookie (Name c) (Value c) "" 0) Hfind).
  - reflexivity.
  - simpl. apply String.eqb_refl.
Qed.

Lemma requestSessionId_with_cookie (h : hstate) (c : Cookie) :
  Request_Cookie (hr h) SESSIONID = (Some c, None) →
  requestSessionId h = (Done (Value c, None), h).
Proof.
  intros Hc. unfold requestSessionId, bind, read_cookie. rewrite Hc.
  reflexivity.
Qed.

(** C4: for a request without session cookie, when the random source
    delivers its sixteen bytes, the cookie binding returns the identifier
    made from those bytes, appends the cookie of that name and value with
    path "/" to the response, and adds the cookie to the request, so that
    the request now carries it; asking the same request again returns the
    same identifier and changes nothing: no second identifier is drawn and
    no second cookie is written. *)
Theorem requestSessionId_binds_new_cookie (h : hstate) :
  let rep := entropy (hg h) (draws (hg h)) in
  let id := id_of_bytes (rr_bytes rep) in
  Request_Cookie (hr h) SESSIONID = (None, Some ErrNoCookie) →
  delivered rep 16 = 16%nat →
  rr_err rep = None →
  ∃ h1,
    requestSessionId h = (Done (id, None), h1) ∧
    hw h1 = (hw h ++ [mkCookie SESSIONID id "/" 0])%list ∧
    hr h1 = Request_AddCookie (hr h) (mkCookie SESSIONID id "/" 0) ∧
    Request_Cookie (hr h1) SESSIONID = (Some (mkCookie SESSIONID id "" 0), None) ∧
    hg h1 = drawn (hg h) ∧
    requestSessionId h1 = (Done (id, None), h1).
Proof.
  intros rep id Hno Hn Herr.
  pose proof (genId_success (hg h) Hn Herr) as Hgen. fold rep id in Hgen.
  set (c := mkCookie SESSIONID id "/" 0).
  pose proof (Cookie_after_AddCookie (hr h) c Hno) as Hafter.
  exists (mkH (SetCookie (hw h) c) (Request_AddCookie (hr h) c) (drawn (hg h))).
  repeat split.
  - unfold requestSessionId, bind, read_cookie, lift. rewrite Hno. simpl.
    rewrite Hgen. reflexivity.
  - exact Hafter.
  - by apply (requestSessionId_with_cookie _ (mkCookie SESSIONID id "" 0)).
Qed.

Lemma requestSessionId_binds_new_cookie_witness :
  ∃ h1,
    requestSessionId (mkH [] no_cookies (initial seconds_clock ones_source))
      = (Done ("ffffffff40ffffff80ffffffffffffff", None), h1) ∧
    hw h1 = [mkCookie SESSIONID "ffffffff40ffffff80ffffffffffffff" "/" 0] ∧
    requestSessionId h1 = (Done ("ffffffff40ffffff80ffffffffffffff", None), h1).
Proof.
  destruct (requestSessionId_binds_new_cookie
              (mkH [] no_cookies (initial seconds_clock ones_source)))
    as (h1 & H1 & H2 & _ & _ & _ & H3).
  - reflexivity.
  - reflexivity.
  - reflexivity.
  - exists h1. split; [exact H1 | split; [exact H2 | exact H3]].
Defined.

(** ** SessionFor *)

#[local] Opaque clone.

Lemma SessionFor_locked_eq (id : string) (st : state) :
  SessionFor_locked id st =
  let m := default ∅ (sessions st) in
  let l := (entry_for id st).1 in
  let h1 := (entry_for id st).2 in
  let rec := <[LASTUSED := VTime (clock st (ticks st))]> (default ∅ (h1 !! l)) in
  let h2 := <[l := rec]> h1 in
  let c := fresh (dom h2) in
  (Done (Some c, None),
   mkState (<[c := rec]> h2) (Some (<[id := l]> m)) (clock st) (S (ticks st))
     (entropy st) (draws st) (logged st)).
Proof.
  unfold SessionFor_locked, entry_for, bind, registry_index.
  destruct (sessions st) as [m |] eqn:Hs; simpl; rewrite ?Hs; simpl.
  - destruct (m !! id) as [l |] eqn:Hl; simpl; rewrite ?Hs; simpl.
    + rewrite clone_eq. simpl. unfold heap_assign.
      rewrite lookup_insert_eq. simpl.
      rewrite (insert_id m id l Hl). reflexivity.
    + unfold registry_assign. simpl. rewrite Hs. simpl.
      rewrite clone_eq. simpl. unfold heap_assign. simpl.
      rewrite !lookup_insert_eq. simpl.
      rewrite !insert_insert_eq. rewrite insert_empty. reflexivity.
  - rewrite lookup_empty. unfold registry_assign. simpl.
    rewrite clone_eq. simpl. unfold heap_assign. simpl.
    rewrite !lookup_insert_eq. simpl.
    rewrite !insert_insert_eq. rewrite insert_empty. reflexivity.
Qed.

#[local] Transparent clone.

#[local] Instance only_drawn_preorder : PreOrder only_drawn.
Proof.
  split.
  - intros st. unfold only_drawn. auto 10.
  - intros a b c (H1 & H2 & H3 & H4 & H5 & H6) (K1 & K2 & K3 & K4 & K5 & K6).
    unfold only_drawn. repeat split; congruence.
Qed.

Lemma requestSessionId_only_drawn (h : hstate) :
  only_drawn (hg h) (hg (requestSessionId h).2).
Proof.
  apply (requestSessionId_preserved only_drawn).
  intros st. unfold only_drawn. simpl. auto 10.
Qed.

Lemma stored_record_only_drawn (st st' : state) (id : string) :
  only_drawn st st' → stored_record st' id = stored_record st id.
Proof.
  intros (Hh & Hs & _). unfold stored_record. by rewrite Hh, Hs.
Qed.

Lemma SessionFor_after_binding (h h1 : hstate) (id : string) :
  requestSessionId h = (Done (id, None), h1) →
  SessionFor h = lift (SessionFor_locked id) h1.
Proof. intros H. unfold SessionFor, bind. rewrite H. reflexivity. Qed.

(** What the locked part of [SessionFor] does, in terms of the record the
    registry held before. *)
Lemma SessionFor_locked_spec (id : string) (st : state) :
  let rec := <[LASTUSED := VTime (clock st (ticks st))]>
               (default {[ SESSIONID := VString id ]} (stored_record st id)) in
  ∃ c st2,
    SessionFor_locked id st = (Done (Some c, None), st2) ∧
    stored_record st2 id = Some rec ∧
    deref (heap st2) (Some c) = rec ∧
    (∀ m l, sessions st2 = Some m → m !! id = Some l → l ≠ c) ∧
    heap st !! c = None ∧
    clock st2 = clock st ∧ ticks st2 = S (ticks st) ∧
    entropy st2 = entropy st ∧ draws st2 = draws st.
Proof.
  intros rec. rewrite SessionFor_locked_eq. cbv zeta.
  set (l := (entry_for id st).1). set (h1 := (entry_for id st).2).
  assert (Hrec : <[LASTUSED := VTime (clock st (ticks st))]> (default ∅ (h1 !! l))
                 = rec).
  { unfold rec, stored_record, h1, l, entry_for.
    destruct (sessions st) as [m |]; simpl.
    - destruct (m !! id); simpl; [reflexivity |].
      by rewrite lookup_insert_eq.
    - rewrite lookup_empty. simpl. by rewrite lookup_insert_eq. }
  rewrite Hrec.
  set (h2 := <[l := rec]> h1). set (c := fresh (dom h2)).
  assert (Hc : h2 !! c = None) by apply fresh_heap.
  assert (Hlc : l ≠ c).
  { intros E. rewrite <- E in Hc. unfold h2 in Hc.
    rewrite lookup_insert_eq in Hc. discriminate. }
  eexists _, _. split; [reflexivity |]. simpl.
  repeat split.
  - unfold stored_record. simpl. rewrite lookup_insert_eq. simpl.
    rewrite lookup_insert_ne by congruence.
    unfold h2. by rewrite lookup_insert_eq.
  - by rewrite lookup_insert_eq.
  - intros m l' [= <-]. rewrite lookup_insert_eq. intros [= <-]. exact Hlc.
  - unfold h2 in Hc. rewrite lookup_insert_ne in Hc by exact Hlc.
    unfold h1, entry_for in Hc.
    destruct (default ∅ (sessions st) !! id); simpl in Hc; [exact Hc |].
    destruct (decide (fresh (dom (heap st)) = c)) as [<- | Hne].
    + apply fresh_heap.
    + by rewrite lookup_insert_ne in Hc.
Qed.

Lemma stored_record_caller_update (st : state) (id : string) (c : loc)
    (f : gmap string value → gmap string value) :
  (∀ m l, sessions st = Some m → m !! id = Some l → l ≠ c) →
  stored_record (caller_update c f st) id = stored_record st id.
Proof.
  intros Hne. unfold stored_record, caller_update. simpl.
  destruct (sessions st) as [m |] eqn:Hs; [| reflexivity].
  destruct (m !! id) as [l |] eqn:Hl; [| reflexivity].
  simpl. rewrite lookup_insert_ne; [reflexivity |].
  intros <-. by apply (Hne m c).
Qed.

Lemma last_used_stored (st : state) (id : string) (rec : gmap string value)
    (t : Z) :
  stored_record st id = Some rec → rec !! LASTUSED = Some (VTime t) →
  last_used st id = VTime t.
Proof. intros H1 H2. unfold last_used. by rewrite H1, H2. Qed.

Lemma SessionFor_spec (h h1 : hstate) (id : string) :
  requestSessionId h = (Done (id, None), h1) →
  let rec := <[LASTUSED := VTime (clock (hg h1) (ticks (hg h1)))]>
               (default {[ SESSIONID := VString id ]}
                  (stored_record (hg h) id)) in
  ∃ c h2,
    SessionFor h = (Done (Some c, None), h2) ∧
    stored_record (hg h2) id = Some rec ∧
    deref (heap (hg h2)) (Some c) = rec ∧
    (∀ m l, sessions (hg h2) = Some m → m !! id = Some l → l ≠ c) ∧
    heap (hg h) !! c = None ∧
    clock (hg h2) = clock (hg h) ∧ ticks (hg h2) = S (ticks (hg h1)).
Proof.
  intros Hreq rec.
  pose proof (requestSessionId_only_drawn h) as Hdrawn.
  rewrite Hreq in Hdrawn. simpl in Hdrawn.
  pose proof (stored_record_only_drawn _ _ id Hdrawn) as Hsame.
  destruct Hdrawn as (Hh & _ & Hclk & _).
  destruct (SessionFor_locked_spec id (hg h1))
    as (c & st2 & Hrun & Hst & Hc & Hne & Hfresh & Hclk2 & Htk & _).
  exists c, (mkH (hw h1) (hr h1) st2).
  rewrite (SessionFor_after_binding h h1 id Hreq). unfold lift. rewrite Hrun.
  simpl. unfold rec. rewrite <- Hsame.
  repeat split; try assumption; congruence.
Qed.

(** C8: a call of [SessionFor] that gets an identifier returns a record and
    leaves the record of the registry for that identifier with the reading
    of the clock taken by this call as last-used value, in the copy it
    returns too, whether the registry held a record for the identifier
    before or not. With a clock that never runs backwards, whatever calls
    happen between two lookups for one identifier, the value stored by the
    later lookup is not smaller than the value stored by the earlier one. *)
Theorem SessionFor_refreshes_last_used (h h1 : hstate) (id : string) :
  (∀ a b, (a <= b)%nat → clock (hg h) a <= clock (hg h) b) →
  requestSessionId h = (Done (id, None), h1) →
  let now := clock (hg h1) (ticks (hg h1)) in
  ∃ c h2,
    SessionFor h = (Done (Some c, None), h2) ∧
    last_used (hg h2) id = VTime now ∧
    index (heap (hg h2)) (Some c) LASTUSED = VTime now ∧
    ∀ cs w' r' h1',
      requestSessionId (mkH w' r' (exec_all cs (hg h2)))
        = (Done (id, None), h1') →
      let now' := clock (hg h1') (ticks (hg h1')) in
      ∃ c' h3,
        SessionFor (mkH w' r' (exec_all cs (hg h2)))
          = (Done (Some c', None), h3) ∧
        last_used (hg h3) id = VTime now' ∧
        now <= now'.
Proof.
  intros Hmono Hreq now.
  destruct (SessionFor_spec h h1 id Hreq)
    as (c & h2 & Hrun & Hst & Hc & _ & _ & Hclk & Htk).
  pose proof (requestSessionId_only_drawn h) as Hdrawn.
  rewrite Hreq in Hdrawn. simpl in Hdrawn.
  destruct Hdrawn as (_ & _ & Hclk1 & Htk1 & _).
  exists c, h2. split; [exact Hrun |]. split; [| split].
  - eapply last_used_stored; [exact Hst |]. apply lookup_insert_eq.
  - unfold index. rewrite Hc, lookup_insert_eq. reflexivity.
  - intros cs w' r' h1' Hreq' now'.
    destruct (SessionFor_spec _ h1' id Hreq')
      as (c' & h3 & Hrun' & Hst' & _).
    exists c', h3. split; [exact Hrun' |]. split.
    + eapply last_used_stored; [exact Hst' |]. apply lookup_insert_eq.
    + pose proof (requestSessionId_only_drawn
                    (mkH w' r' (exec_all cs (hg h2)))) as Hd'.
      rewrite Hreq' in Hd'. simpl in Hd'.
      destruct Hd' as (_ & _ & Hclk' & Htk' & _).
      destruct (exec_all_later cs (hg h2)) as (Hclk'' & _ & Htk'').
      unfold now, now'. rewrite Hclk', Hclk'', Hclk, Hclk1.
      apply Hmono. lia.
Qed.

Lemma SessionFor_refreshes_last_used_witness :
  ∃ c h2,
    SessionFor (mkH [] no_cookies (initial seconds_clock ones_source))
      = (Done (Some c, None), h2) ∧
    last_used (hg h2) "ffffffff40ffffff80ffffffffffffff" = VTime 0.
Proof.
  destruct (SessionFor_refreshes_last_used
              (mkH [] no_cookies (initial seconds_clock ones_source))
              (mkH [mkCookie SESSIONID "ffffffff40ffffff80ffffffffffffff" "/" 0]
                 (Request_AddCookie no_cookies
                    (mkCookie SESSIONID "ffffffff40ffffff80ffffffffffffff" "/" 0))
                 (drawn (initial seconds_clock ones_source)))
              "ffffffff40ffffff80ffffffffffffff")
    as (c & h2 & H1 & H2 & _).
  - intros a b Hab. simpl. unfold seconds_clock, Second. lia.
  - reflexivity.
  - exists c, h2. split; [exact H1 | exact H2].
Defined.

(** Which maps [SessionFor] touches: the one it returns is new, the entry
    of the registry for the identifier is the one that was there if there
    was one, and every other map of the heap is left as it was. *)
Lemma SessionFor_locked_frame (id : string) (st : state) :
  ∃ c l st2 m2,
    SessionFor_locked id st = (Done (Some c, None), st2) ∧
    heap st !! c = None ∧
    sessions st2 = Some m2 ∧ m2 !! id = Some l ∧
    c ≠ l ∧
    (∀ m l0, sessions st = Some m → m !! id = Some l0 → l0 = l) ∧
    (∀ l', l' ≠ c → l' ≠ l → heap st2 !! l' = heap st !! l').
Proof.
  rewrite SessionFor_locked_eq. cbv zeta.
  set (l := (entry_for id st).1). set (h1 := (entry_for id st).2).
  set (rec := <[LASTUSED := VTime (clock st (ticks st))]> (default ∅ (h1 !! l))).
  set (h2 := <[l := rec]> h1). set (c := fresh (dom h2)).
  assert (Hc : h2 !! c = None) by apply fresh_heap.
  assert (Hlc : c ≠ l).
  { intros E. rewrite E in Hc. unfold h2 in Hc.
    rewrite lookup_insert_eq in Hc. discriminate. }
  assert (Hh1 : ∀ l', l' ≠ l → h1 !! l' = heap st !! l').
  { intros l' Hl'. unfold h1, l, entry_for in *.
    destruct (default ∅ (sessions st) !! id); simpl in *; [reflexivity |].
    by rewrite lookup_insert_ne. }
  eexists c, l, _, _. split; [reflexivity |]. cbn [heap sessions].
  split; [| split; [reflexivity | split; [apply lookup_insert_eq |
          split; [exact Hlc | split]]]].
  - unfold h2 in Hc. rewrite lookup_insert_ne in Hc by congruence.
    by rewrite Hh1 in Hc by exact Hlc.
  - intros m l0 Hm Hl0. unfold l, entry_for. rewrite Hm. simpl.
    by rewrite Hl0.
  - intros l' Hc' Hl'. rewrite lookup_insert_ne by congruence.
    unfold h2. rewrite lookup_insert_ne by congruence. by apply Hh1.
Qed.

Lemma SessionFor_heap_frame (h h1 : hstate) (id : string) :
  requestSessionId h = (Done (id, None), h1) →
  ∃ c l h2 m2,
    SessionFor h = (Done (Some c, None), h2) ∧
    heap (hg h) !! c = None ∧
    sessions (hg h2) = Some m2 ∧ m2 !! id = Some l ∧
    c ≠ l ∧
    (∀ m l0, sessions (hg h) = Some m → m !! id = Some l0 → l0 = l) ∧
    (∀ l', l' ≠ c → l' ≠ l → heap (hg h2) !! l' = heap (hg h) !! l').
Proof.
  intros Hreq.
  pose proof (requestSessionId_only_drawn h) as Hdrawn.
  rewrite Hreq in Hdrawn. simpl in Hdrawn.
  destruct Hdrawn as (Hh & Hs & _).
  destruct (SessionFor_locked_frame id (hg h1))
    as (c & l & st2 & m2 & Hrun & Hfresh & Hm2 & Hl & Hcl & Hkeep & Hframe).
  exists c, l, (mkH (hw h1) (hr h1) st2), m2.
  rewrite (SessionFor_after_binding h h1 id Hreq). unfold lift. rewrite Hrun.
  cbn [hg]. rewrite <- Hh, <- Hs.
  split; [reflexivity |]. split; [exact Hfresh |]. split; [exact Hm2 |].
  split; [exact Hl |]. split; [exact Hcl |]. split; [exact Hkeep | exact Hframe].
Qed.

(** C2: the record [SessionFor] returns is a copy of the record of the
    registry in a map of its own: a map that did not exist before the
    call, so that no earlier holder and no entry of the registry refers to
    it, and the call leaves every other map of the heap as it was, the
    entry for the identifier apart. Whatever the caller then does to the
    returned record, a later [SessionFor] for the same identifier finds
    the record of the registry as the first call left it and returns that
    record, with only the last-used value renewed, in yet another new
    map: nothing of the first caller's changes shows unless [Save] is
    called. The two holders are independent in both directions: the
    second call does not touch the first caller's map, which keeps its
    changes, and whatever the second caller does to its own map reaches
    neither the first caller's map nor the registry. *)
Theorem SessionFor_returns_isolated_copy (h h1 : hstate) (id : string) :
  requestSessionId h = (Done (id, None), h1) →
  ∃ c h2 rec,
    SessionFor h = (Done (Some c, None), h2) ∧
    stored_record (hg h2) id = Some rec ∧
    deref (heap (hg h2)) (Some c) = rec ∧
    (∀ m l, sessions (hg h2) = Some m → m !! id = Some l → l ≠ c) ∧
    heap (hg h) !! c = None ∧
    (∀ l', l' ≠ c →
           (∀ m l, sessions (hg h2) = Some m → m !! id = Some l → l' ≠ l) →
           heap (hg h2) !! l' = heap (hg h) !! l') ∧
    ∀ f w' r' h1',
      stored_record (caller_update c f (hg h2)) id = Some rec ∧
      (requestSessionId (mkH w' r' (caller_update c f (hg h2)))
         = (Done (id, None), h1') →
       ∃ c' h3,
         SessionFor (mkH w' r' (caller_update c f (hg h2)))
           = (Done (Some c', None), h3) ∧
         deref (heap (hg h3)) (Some c')
           = <[LASTUSED := VTime (clock (hg h1') (ticks (hg h1')))]> rec ∧
         stored_record (hg h3) id
           = Some (<[LASTUSED := VTime (clock (hg h1') (ticks (hg h1')))]> rec) ∧
         c' ≠ c ∧
         heap (caller_update c f (hg h2)) !! c' = None ∧
         deref (heap (hg h3)) (Some c) = f rec ∧
         ∀ g,
           deref (heap (caller_update c' g (hg h3))) (Some c) = f rec ∧
           stored_record (caller_update c' g (hg h3)) id
             = Some (<[LASTUSED := VTime (clock (hg h1') (ticks (hg h1')))]> rec) ∧
           deref (heap (caller_update c' g (hg h3))) (Some c')
             = g (<[LASTUSED := VTime (clock (hg h1') (ticks (hg h1')))]> rec)).
Proof.
  intros Hreq.
  destruct (SessionFor_spec h h1 id Hreq)
    as (c & h2 & Hrun & Hst & Hc & Hne & _).
  destruct (SessionFor_heap_frame h h1 id Hreq)
    as (c0 & l & h20 & m2 & Hrun0 & Hfresh & Hm2 & Hl & Hcl & _ & Hframe).
  assert (c0 = c ∧ h20 = h2) as [-> ->].
  { rewrite Hrun in Hrun0. by injection Hrun0 as <- <-. }
  match type of Hst with _ = Some ?r => set (rec := r) in * end.
  exists c, h2, rec. split; [exact Hrun |]. split; [exact Hst |].
  split; [exact Hc |]. split; [exact Hne |]. split; [exact Hfresh |].
  split.
  { intros l' Hc' Hl'. apply Hframe; [exact Hc' |]. by apply (Hl' m2). }
  intros f w' r' h1'.
  set (st' := caller_update c f (hg h2)).
  assert (Hkeep : stored_record st' id = stored_record (hg h2) id)
    by (by apply stored_record_caller_update).
  split; [by rewrite Hkeep |].
  intros Hreq'.
  destruct (SessionFor_spec _ h1' id Hreq')
    as (c' & h3 & Hrun' & Hst' & Hc' & Hne' & _).
  destruct (SessionFor_heap_frame _ h1' id Hreq')
    as (c0 & l' & h30 & m3 & Hrun0' & Hfresh' & Hm3 & Hl' & Hcl' & Hsame & Hframe').
  assert (c0 = c' ∧ h30 = h3) as [-> ->].
  { rewrite Hrun' in Hrun0'. by injection Hrun0' as <- <-. }
  cbn [hg] in Hst', Hc', Hfresh', Hsame, Hframe'.
  rewrite Hkeep, Hst in Hst', Hc'. simpl in Hst', Hc'.
  assert (Hl'l : l = l') by (apply (Hsame m2); [exact Hm2 | exact Hl]).
  subst l'.
  assert (Hatc : heap st' !! c = Some (f rec)).
  { unfold st', caller_update. cbn [heap set_heap].
    rewrite lookup_insert_eq. do 2 f_equal. exact Hc. }
  assert (Hcc : c' ≠ c).
  { intros E. rewrite E in Hfresh'. rewrite Hatc in Hfresh'. discriminate. }
  assert (Hc3 : heap (hg h3) !! c = Some (f rec)).
  { rewrite Hframe' by congruence. exact Hatc. }
  exists c', h3. split; [exact Hrun' |]. split; [exact Hc' |].
  split; [exact Hst' |]. split; [exact Hcc |]. split; [exact Hfresh' |].
  split; [simpl; by rewrite Hc3 |].
  intros g. split; [| split].
  - unfold caller_update. cbn [heap set_heap deref].
    rewrite lookup_insert_ne by exact Hcc. by rewrite Hc3.
  - rewrite stored_record_caller_update; [exact Hst' | exact Hne'].
  - unfold caller_update. simpl. rewrite lookup_insert_eq. simpl.
    simpl in Hc'. rewrite Hc'. reflexivity.
Qed.

Lemma SessionFor_returns_isolated_copy_witness :
  ∃ c h2 rec,
    SessionFor (mkH [] no_cookies (initial seconds_clock ones_source))
      = (Done (Some c, None), h2) ∧
    stored_record (hg h2) "ffffffff40ffffff80ffffffffffffff" = Some rec ∧
    stored_record (caller_update c (fun _ => ∅) (hg h2))
      "ffffffff40ffffff80ffffffffffffff" = Some rec ∧
    ∃ c' h3,
      SessionFor
        (mkH []
           (mkRequest
              [mkCookie SESSIONID "ffffffff40ffffff80ffffffffffffff" "" 0] None)
           (caller_update c (fun _ => ∅) (hg h2)))
        = (Done (Some c', None), h3) ∧
      c' ≠ c ∧
      deref (heap (hg h3)) (Some c) = ∅.
Proof.
  destruct (SessionFor_returns_isolated_copy
              (mkH [] no_cookies (initial seconds_clock ones_source))
              (mkH [mkCookie SESSIONID "ffffffff40ffffff80ffffffffffffff" "/" 0]
                 (Request_AddCookie no_cookies
                    (mkCookie SESSIONID "ffffffff40ffffff80ffffffffffffff" "/" 0))
                 (drawn (initial seconds_clock ones_source)))
              "ffffffff40ffffff80ffffffffffffff")
    as (c & h2 & rec & H1 & H2 & _ & _ & _ & _ & H3).
  - reflexivity.
  - exists c, h2, rec. split; [exact H1 | split; [exact H2 |]].
    destruct (H3 (fun _ => ∅) []
                (mkRequest
                   [mkCookie SESSIONID "ffffffff40ffffff80ffffffffffffff" "" 0]
                   None)
                (mkH []
                   (mkRequest
                      [mkCookie SESSIONID "ffffffff40ffffff80ffffffffffffff" "" 0]
                      None)
                   (caller_update c (fun _ => ∅) (hg h2))))
      as [H4 H5].
    split; [exact H4 |].
    destruct (H5 eq_refl) as (c' & h3 & H6 & _ & _ & H7 & _ & H8 & _).
    exists c', h3. split; [exact H6 | split; [exact H7 | exact H8]].
Defined.

(** C7: with an initialised registry, [Save] of a record whose identifier
    key holds a string stores a copy of exactly that record under the
    identifier, whatever the registry held for it before; a following
    [SessionFor] for that identifier returns the saved record with only
    the last-used value renewed: every other key of the saved record is
    there with its value, and no key of the replaced entry is. *)
Theorem Save_then_SessionFor (s : sref) (st : state) (m : gmap string loc)
    (id : string) :
  sessions st = Some m →
  index (heap st) s SESSIONID = VString id →
  ∃ st1,
    Save s st = (Done tt, st1) ∧
    stored_record st1 id = Some (deref (heap st) s) ∧
    ∀ w r h1,
      requestSessionId (mkH w r st1) = (Done (id, None), h1) →
      ∃ c h2,
        SessionFor (mkH w r st1) = (Done (Some c, None), h2) ∧
        deref (heap (hg h2)) (Some c)
          = <[LASTUSED := VTime (clock (hg h1) (ticks (hg h1)))]>
              (deref (heap st) s) ∧
        ∀ k, k ≠ LASTUSED →
             deref (heap (hg h2)) (Some c) !! k = deref (heap st) s !! k.
Proof.
  intros Hm Hid.
  eexists. rewrite Save_eq, Hid. simpl. rewrite Hm.
  split; [reflexivity |].
  assert (Hst : stored_record
                  (set_sessions (Some (<[id := fresh (dom (heap st))]> m))
                     (set_heap (<[fresh (dom (heap st)) := deref (heap st) s]>
                                  (heap st)) st)) id
                = Some (deref (heap st) s)).
  { unfold stored_record. simpl. rewrite !lookup_insert_eq. reflexivity. }
  split; [exact Hst |].
  intros w r h1 Hreq.
  destruct (SessionFor_spec _ h1 id Hreq) as (c & h2 & Hrun & _ & Hc & _).
  cbn [hg] in Hc. rewrite Hst in Hc. simpl in Hc.
  exists c, h2. split; [exact Hrun |]. split; [exact Hc |].
  intros k Hk. rewrite Hc. by rewrite lookup_insert_ne.
Qed.

Lemma Save_then_SessionFor_witness :
  ∃ st1,
    Save (Some 2%positive) login_state = (Done tt, st1) ∧
    stored_record st1 "abc123"
      = Some {[ SESSIONID := VString "abc123"; LASTUSED := VTime 0;
                "LoggedUser" := VOther "bob" ]}.
Proof.
  destruct (Save_then_SessionFor (Some 2%positive) login_state
              {[ "abc123" := 1%positive ]} "abc123")
    as (st1 & H1 & H2 & _).
  - reflexivity.
  - reflexivity.
  - exists st1. split; [exact H1 | exact H2].
Defined.

(** ** The sweep *)

Lemma cleanup_step_eq (k : string) (st : state) (m : gmap string loc)
    (l : loc) (t : Z) :
  sessions st = Some m → m !! k = Some l →
  index (heap st) (Some l) LASTUSED = VTime t →
  cleanup_step k st =
  (Done tt,
   if MAXSESSIONAGE <=? time_Sub (clock st (ticks st)) t
   then mkState (heap st) (Some (delete k m)) (clock st) (S (ticks st))
          (entropy st) (draws st)
          (logged st ++ [expiry_line k])%list
   else mkState (heap st) (Some m) (clock st) (S (ticks st))
          (entropy st) (draws st) (logged st)).
Proof.
  intros Hs Hk Ht.
  unfold cleanup_step, bind, registry_index, expired, bind, time_Now, map_index.
  rewrite Hs, Hk. simpl. rewrite Ht. simpl.
  destruct (MAXSESSIONAGE <=? time_Sub (clock st (ticks st)) t); simpl.
  - unfold registry_delete, set_sessions. simpl. rewrite Hs. reflexivity.
  - unfold ret. by rewrite Hs.
Qed.

Lemma cleanup_loop_spec (order : list string) :
  ∀ (st : state) (m : gmap string loc),
    sessions st = Some m →
    NoDup order →
    (∀ k, k ∈ order →
          ∃ l t, m !! k = Some l ∧ index (heap st) (Some l) LASTUSED = VTime t) →
    ∃ st' m',
      cleanup_loop order st = (Done tt, st') ∧
      sessions st' = Some m' ∧
      heap st' = heap st ∧
      clock st' = clock st ∧
      ticks st' = (ticks st + length order)%nat ∧
      (∀ k, k ∉ order → m' !! k = m !! k) ∧
      (∀ i k l t,
          order !! i = Some k → m !! k = Some l →
          index (heap st) (Some l) LASTUSED = VTime t →
          m' !! k = if MAXSESSIONAGE <=? time_Sub (clock st (ticks st + i)%nat) t
                    then None else Some l).
Proof.
  induction order as [| k rest IH]; intros st m Hs Hnd Hts.
  - exists st, m. simpl.
    split; [reflexivity |]. split; [exact Hs |].
    split; [reflexivity |]. split; [reflexivity |].
    split; [lia |]. split; [reflexivity |].
    intros i k l t Hi. by rewrite lookup_nil in Hi.
  - apply NoDup_cons in Hnd as [Hk Hnd].
    destruct (Hts k) as (l & t & Hl & Ht); [by left |].
    simpl. unfold bind. rewrite (cleanup_step_eq k st m l t Hs Hl Ht).
    set (gone := MAXSESSIONAGE <=? time_Sub (clock st (ticks st)) t).
    set (m1 := if gone then delete k m else m).
    set (st1 := if gone then _ else _).
    assert (Hs1 : sessions st1 = Some m1) by (unfold st1, m1; by destruct gone).
    assert (Hh1 : heap st1 = heap st) by (unfold st1; by destruct gone).
    assert (Hc1 : clock st1 = clock st) by (unfold st1; by destruct gone).
    assert (Ht1 : ticks st1 = S (ticks st)) by (unfold st1; by destruct gone).
    assert (Hm1 : ∀ k', k' ≠ k → m1 !! k' = m !! k').
    { intros k' Hne. unfold m1. destruct gone; [| reflexivity].
      by rewrite lookup_delete_ne. }
    destruct (IH st1 m1 Hs1 Hnd) as (st' & m' & Hrun & Hs' & Hh' & Hc' & Ht' & Hout & Hin).
    { intros k' Hk'. destruct (Hts k') as (l' & t' & Hl' & Ht''); [by right |].
      exists l', t'. rewrite Hh1. split; [| exact Ht''].
      rewrite Hm1; [exact Hl' |]. intros ->. contradiction. }
    exists st', m'. split; [exact Hrun |]. split; [exact Hs' |].
    split; [congruence |]. split; [congruence |].
    split; [rewrite Ht', Ht1; simpl; lia |]. split.
    + intros k' Hk'. apply not_elem_of_cons in Hk' as [Hne Hk'].
      rewrite Hout by exact Hk'. by apply Hm1.
    + intros [| i] k' l' t' Hi Hl' Ht''; simpl in Hi.
      * injection Hi as <-. rewrite Hout by exact Hk.
        assert (l' = l) by congruence. assert (t' = t) by congruence. subst.
        rewrite Nat.add_0_r. fold gone. unfold m1.
        destruct gone; [apply lookup_delete_eq | exact Hl].
      * assert (Hne : k' ≠ k).
        { intros ->. apply Hk. eapply list_elem_of_lookup_2. exact Hi. }
        rewrite (Hin i k' l' t' Hi); [| by rewrite Hm1 | by rewrite Hh1].
        rewrite Hc1, Ht1. by replace (S (ticks st) + i)%nat with (ticks st + S i)%nat by lia.
Qed.

Lemma stored_record_inv (st : state) (k : string) (rec : gmap string value) :
  stored_record st k = Some rec →
  ∃ m l, sessions st = Some m ∧ m !! k = Some l ∧
         rec = deref (heap st) (Some l).
Proof.
  unfold stored_record. intros H.
  destruct (sessions st) as [m |]; [| discriminate].
  destruct (m !! k) as [l |] eqn:Hl; [| discriminate].
  injection H as <-. eauto.
Qed.

(** C3: a sweep over a registry whose records all carry a last-used time
    returns normally, visits every record once, and removes the record it
    examines at clock reading [now] exactly when [now - last_used] is at
    least thirty minutes; every other record stays as it was. So a record
    last used thirty minutes and one second before the reading is removed
    and one last used twenty-nine minutes before it is kept. *)
Theorem cleanupSessions_removes_exactly_expired
    (order : list string) (st : state) :
  visits order st →
  (∀ k rec, stored_record st k = Some rec →
            ∃ t, rec !! LASTUSED = Some (VTime t)) →
  ∃ st',
    cleanupSessions order st = (Done tt, st') ∧
    (∀ k, stored_record st k = None → stored_record st' k = None) ∧
    ∀ k rec t,
      stored_record st k = Some rec →
      rec !! LASTUSED = Some (VTime t) →
      ∃ i,
        order !! i = Some k ∧
        let now := clock st (ticks st + i)%nat in
        (stored_record st' k = None ↔ MAXSESSIONAGE <= now - t) ∧
        (stored_record st' k = Some rec ↔ now - t < MAXSESSIONAGE) ∧
        (t = now - 30 * Minute - Second → stored_record st' k = None) ∧
        (t = now - 29 * Minute → stored_record st' k = Some rec).
Proof.
  intros [Hnd Hvis] Hts. unfold cleanupSessions.
  destruct (sessions st) as [m |] eqn:Hs.
  - destruct (cleanup_loop_spec order st m Hs Hnd)
      as (st' & m' & Hrun & Hs' & Hh' & _ & _ & Hout & Hin).
    { intros k [m0 [l [Hm0 Hl]]]%Hvis.
      assert (m0 = m) by congruence. subst m0.
      destruct (Hts k (deref (heap st) (Some l))) as [t Ht].
      { unfold stored_record. by rewrite Hs, Hl. }
      exists l, t. split; [exact Hl |]. unfold index. by rewrite Ht. }
    exists st'. split; [exact Hrun |]. split.
    + intros k Hk. unfold stored_record in *. rewrite Hs in Hk. rewrite Hs'.
      destruct (m !! k) as [l |] eqn:Hl; [discriminate |].
      destruct (decide (k ∈ order)) as [Hin' | Hnin].
      * apply Hvis in Hin' as (m0 & l & Hm0 & Hl'). congruence.
      * by rewrite (Hout k Hnin), Hl.
    + intros k rec t Hrec Ht.
      destruct (stored_record_inv st k rec Hrec) as (m0 & l & Hm0 & Hl & Hdef).
      assert (m0 = m) by congruence. subst m0.
      assert (Hk : k ∈ order) by (apply Hvis; eauto).
      apply list_elem_of_lookup_1 in Hk as [i Hi].
      exists i. split; [exact Hi |].
      set (now := clock st (ticks st + i)%nat).
      assert (Hidx : index (heap st) (Some l) LASTUSED = VTime t).
      { unfold index. by rewrite <- Hdef, Ht. }
      pose proof (Hin i k l t Hi Hl Hidx) as Hk'. fold now in Hk'.
      assert (Hst' : stored_record st' k
                     = if MAXSESSIONAGE <=? time_Sub now t then None else Some rec).
      { unfold stored_record. rewrite Hs', Hk'.
        destruct (MAXSESSIONAGE <=? time_Sub now t); [reflexivity |].
        by rewrite Hh', Hdef. }
      pose proof (time_Sub_ge now t) as Hge.
      destruct (Z.leb_spec MAXSESSIONAGE (time_Sub now t)) as [Hold | Hyoung];
        rewrite Hst'; unfold MAXSESSIONAGE, Minute, Second in *.
      * repeat split; try done; try lia; intros; try lia.
      * repeat split; try done; try lia; intros; try lia.
  - assert (order = []) as ->.
    { destruct order as [| k rest]; [reflexivity |].
      destruct (proj1 (Hvis k)) as (m & l & Hm & _); [by left | discriminate]. }
    exists st. split; [reflexivity |]. split; [auto |].
    intros k rec t Hrec. unfold stored_record in Hrec. by rewrite Hs in Hrec.
Qed.

Lemma visits_intro (order : list string) (st : state) :
  NoDup order →
  (list_to_set order : gset string) = dom (default ∅ (sessions st)) →
  visits order st.
Proof.
  intros Hnd Hdom. split; [exact Hnd |]. intros k.
  rewrite <- (elem_of_list_to_set (C := gset string)), Hdom, elem_of_dom.
  destruct (sessions st) as [m |]; simpl.
  - split.
    + intros [l Hl]. eauto.
    + intros (m' & l & [= <-] & Hl). eauto.
  - rewrite lookup_empty. split.
    + intros [l Hl]. discriminate.
    + intros (m' & l & Hm & _). discriminate.
Qed.

Lemma timestamps_intro (st : state) :
  map_Forall (fun _ l => is_time (index (heap st) (Some l) LASTUSED) = true)
    (default ∅ (sessions st)) →
  ∀ k rec, stored_record st k = Some rec →
           ∃ t, rec !! LASTUSED = Some (VTime t).
Proof.
  intros Hall k rec (m & l & Hm & Hl & ->)%stored_record_inv.
  rewrite Hm in Hall. simpl in Hall. specialize (Hall k l Hl).
  unfold index in Hall.
  destruct (deref (heap st) (Some l) !! LASTUSED) as [[| | t |] |];
    try discriminate. eauto.
Qed.

Lemma cleanupSessions_removes_exactly_expired_witness :
  ∃ st',
    cleanupSessions ["young"; "old"] sweep_state = (Done tt, st') ∧
    stored_record st' "old" = None ∧
    stored_record st' "young" = stored_record sweep_state "young".
Proof.
  destruct (cleanupSessions_removes_exactly_expired ["young"; "old"] sweep_state)
    as (st' & Hrun & _ & Hall).
  - apply visits_intro.
    + compute_done.
    + vm_compute. reflexivity.
  - apply timestamps_intro. compute_done.
  - exists st'. split; [exact Hrun |]. split.
    + destruct (Hall "old" _ (1799 * Second) eq_refl eq_refl)
        as (i & _ & _ & _ & Hold & _).
      apply Hold. reflexivity.
    + destruct (Hall "young" _ (1860 * Second) eq_refl eq_refl)
        as (i & _ & _ & _ & _ & Hyoung).
      rewrite Hyoung; reflexivity.
Defined.

(** * Further properties *)

(** ** The hexadecimal encoding and the shape of identifiers *)

Lemma byte_of_digits_hexdigit (v : byte) :
  byte_of_digits (hexdigit (N.shiftr (Byte.to_N v) 4))
    (hexdigit (N.land (Byte.to_N v) 15)) = v.
Proof. destruct v; reflexivity. Qed.

Lemma hexdigit_in_table (n : N) : hexdigit n ∈ chars hextable.
Proof.
  unfold hexdigit.
  destruct (String.get (N.to_nat n) hextable) as [c |] eqn:E.
  - revert E. generalize (N.to_nat n). intros k.
    do 16 (destruct k as [| k]; [intros [= <-]; simpl; set_solver |]).
    simpl. discriminate.
  - simpl. set_solver.
Qed.

Lemma EncodeToString_inj (b b' : list byte) :
  EncodeToString b = EncodeToString b' → b = b'.
Proof.
  revert b'. induction b as [| v b IH]; intros [| v' b'] H; simpl in H;
    try discriminate; [reflexivity |].
  injection H as H1 H2 H3.
  rewrite <- (byte_of_digits_hexdigit v), <- (byte_of_digits_hexdigit v').
  rewrite H1, H2. f_equal. by apply IH.
Qed.

(** X1: the encoding writes two characters per byte, all of them digits of
    the lowercase table, and loses nothing: two byte strings with the same
    encoding are equal. *)
Theorem EncodeToString_faithful (b : list byte) :
  String.length (EncodeToString b) = (2 * length b)%nat ∧
  (∀ c, c ∈ chars (EncodeToString b) → c ∈ chars hextable) ∧
  (∀ b', EncodeToString b = EncodeToString b' → b = b').
Proof.
  split; [| split].
  - induction b as [| v b IH]; simpl; [reflexivity | rewrite IH; lia].
  - induction b as [| v b IH]; simpl; intros c Hc.
    + by apply elem_of_nil in Hc.
    + apply elem_of_cons in Hc as [-> | Hc]; [apply hexdigit_in_table |].
      apply elem_of_cons in Hc as [-> | Hc]; [apply hexdigit_in_table |].
      by apply IH.
  - intros b'. apply EncodeToString_inj.
Qed.

Lemma EncodeToString_faithful_witness :
  String.length (EncodeToString [x00; xff]) = 4%nat ∧
  "f"%char ∈ chars hextable.
Proof.
  destruct (EncodeToString_faithful [x00; xff]) as (H1 & H2 & _).
  split; [exact H1 |]. apply H2. compute_done.
Defined.

Lemma sixteen_bytes (b : list byte) :
  length b = 16%nat →
  ∃ b0 b1 b2 b3 b4 b5 b6 b7 b8 b9 b10 b11 b12 b13 b14 b15,
    b = [b0; b1; b2; b3; b4; b5; b6; b7; b8; b9; b10; b11; b12; b13; b14; b15].
Proof.
  intros H.
  do 16 (destruct b as [| ? b]; [discriminate |]).
  destruct b; [| discriminate]. eauto 20.
Qed.

Lemma take_16_length (rep : rand_reply) :
  delivered rep 16 = 16%nat → length (take 16 (rr_bytes rep)) = 16%nat.
Proof. unfold delivered. rewrite length_take. lia. Qed.

(** X2: every identifier [genId] returns after a complete read has 32
    characters, all lowercase hexadecimal digits, with "40" at characters
    8-9 and "80" at characters 16-17 (bytes 4 and 8 of the value). *)
Theorem genId_identifier_format (st : state) :
  delivered (entropy st (draws st)) 16 = 16%nat →
  rr_err (entropy st (draws st)) = None →
  ∃ id,
    genId st = (Done (id, None), drawn st) ∧
    String.length id = 32%nat ∧
    (∀ c, c ∈ chars id → c ∈ chars hextable) ∧
    String.substring 8 2 id = "40" ∧
    String.substring 16 2 id = "80".
Proof.
  intros Hn He. exists (id_of_bytes (rr_bytes (entropy st (draws st)))).
  split; [by apply genId_success |].
  unfold id_of_bytes.
  destruct (sixteen_bytes _ (take_16_length _ Hn))
    as (b0 & b1 & b2 & b3 & b4 & b5 & b6 & b7 & b8 & b9 & b10 & b11 & b12
        & b13 & b14 & b15 & ->).
  split; [reflexivity |]. split; [| split; reflexivity].
  intros c Hc. simpl in Hc.
  repeat (apply elem_of_cons in Hc as [-> | Hc];
          [first [apply hexdigit_in_table | simpl; set_solver] |]).
  by apply elem_of_nil in Hc.
Qed.

Lemma genId_identifier_format_witness :
  ∃ id,
    genId (initial seconds_clock ones_source)
      = (Done (id, None), drawn (initial seconds_clock ones_source)) ∧
    String.length id = 32%nat ∧
    String.substring 8 2 id = "40".
Proof.
  destruct (genId_identifier_format (initial seconds_clock ones_source))
    as (id & H1 & H2 & _ & H3 & _).
  - reflexivity.
  - reflexivity.
  - exists id. split; [exact H1 | split; [exact H2 | exact H3]].
Defined.

(** X3: the random bytes 4 and 8 never reach the identifier. After two
    complete reads, [genId] returns the same identifier exactly when the
    two sixteen-byte values agree at every position other than 4 and 8. *)
Theorem genId_ignores_bytes_4_and_8 (st st' : state) (id id' : string) :
  delivered (entropy st (draws st)) 16 = 16%nat →
  rr_err (entropy st (draws st)) = None →
  delivered (entropy st' (draws st')) 16 = 16%nat →
  rr_err (entropy st' (draws st')) = None →
  (genId st).1 = Done (id, None) →
  (genId st').1 = Done (id', None) →
  (id = id' ↔
   ∀ i, i ≠ 4%nat → i ≠ 8%nat →
        take 16 (rr_bytes (entropy st (draws st))) !! i
        = take 16 (rr_bytes (entropy st' (draws st'))) !! i).
Proof.
  intros Hn He Hn' He' Hid Hid'.
  rewrite genId_success in Hid by assumption.
  rewrite genId_success in Hid' by assumption.
  injection Hid as <-. injection Hid' as <-. unfold id_of_bytes.
  set (b := take 16 (rr_bytes (entropy st (draws st)))).
  set (b' := take 16 (rr_bytes (entropy st' (draws st')))).
  split.
  - intros H%EncodeToString_inj i H4 H8.
    assert (Hi : (<[4%nat := x40]> (<[8%nat := x80]> b)) !! i
                 = (<[4%nat := x40]> (<[8%nat := x80]> b')) !! i)
      by (by rewrite H).
    by rewrite !list_lookup_insert_ne in Hi by done.
  - intros H. f_equal.
    apply list_eq. intros i.
    destruct (decide (i = 4%nat)) as [-> | H4].
    { rewrite !list_lookup_insert_eq; [done | |];
        rewrite length_insert; unfold b, b';
        rewrite take_16_length by assumption; lia. }
    rewrite !(list_lookup_insert_ne _ 4 i) by done.
    destruct (decide (i = 8%nat)) as [-> | H8].
    { rewrite !list_lookup_insert_eq; [done | |]; unfold b, b';
        rewrite take_16_length by assumption; lia. }
    rewrite !list_lookup_insert_ne by done. by apply H.
Qed.

Lemma genId_ignores_bytes_4_and_8_witness :
  (genId (initial seconds_clock ones_source)).1
    = (genId (initial seconds_clock mixed_source)).1 ∧
  ∀ i, i ≠ 4%nat → i ≠ 8%nat →
       take 16 (rr_bytes (ones_source 0)) !! i
       = take 16 (rr_bytes (mixed_source 0)) !! i.
Proof.
  split; [reflexivity |].
  exact (proj1 (genId_ignores_bytes_4_and_8
                  (initial seconds_clock ones_source)
                  (initial seconds_clock mixed_source)
                  "ffffffff40ffffff80ffffffffffffff"
                  "ffffffff40ffffff80ffffffffffffff"
                  eq_refl eq_refl eq_refl eq_refl eq_refl eq_refl) eq_refl).
Defined.

(** ** The cookie binding and [SessionFor], case by case *)

Lemma requestSessionId_fault (h : hstate) (msg : string) :
  req_fault (hr h) = Some msg →
  requestSessionId h = (Done ("", Some (ErrOther msg)), h).
Proof.
  intros Hf. unfold requestSessionId, bind, read_cookie, Request_Cookie.
  rewrite Hf. reflexivity.
Qed.

(** The cookie binding never panics, and an error comes without
    identifier and without any cookie written or added. *)
Lemma requestSessionId_total (h : hstate) :
  ∃ id e h1,
    requestSessionId h = (Done (id, e), h1) ∧
    (e ≠ None → id = "" ∧ hw h1 = hw h ∧ hr h1 = hr h).
Proof.
  unfold requestSessionId, bind, read_cookie, lift.
  destruct (Request_Cookie (hr h) SESSIONID) as [c e].
  destruct e as [[| msg] |]; [| | destruct c as [c |]]; simpl;
    rewrite ?genId_eq; cbv zeta;
    try (destruct (negb _ || failed _); simpl;
         [destruct (rr_err (entropy (hg h) (draws (hg h)))) as [e' |]; simpl |]);
    eexists _, _, _; (split; [reflexivity |]);
    first [ by intros [] | auto ].
Qed.

(** X4: [SessionFor] never panics, whatever the request and the state.
    It returns either a session and no error, and then the session is a
    map of the heap, or no session and an error, and then the response,
    the request, the registry, the heap and the clock are as before. *)
Theorem SessionFor_never_panics (h : hstate) :
  ∃ s e h',
    SessionFor h = (Done (s, e), h') ∧
    ((∃ c, s = Some c ∧ e = None ∧ is_Some (heap (hg h') !! c)) ∨
     (s = None ∧ e ≠ None ∧ hw h' = hw h ∧ hr h' = hr h ∧
      only_drawn (hg h) (hg h'))).
Proof.
  destruct (requestSessionId_total h) as (id & e & h1 & Hreq & Herr).
  pose proof (requestSessionId_only_drawn h) as Hdrawn.
  rewrite Hreq in Hdrawn. simpl in Hdrawn.
  destruct e as [e |].
  - exists None, (Some e), h1. split.
    + unfold SessionFor, bind. rewrite Hreq. reflexivity.
    + right. destruct Herr as (_ & Hw & Hr); [done |].
      split; [reflexivity |]. split; [done |]. split; [exact Hw |].
      split; [exact Hr | exact Hdrawn].
  - destruct (SessionFor_spec h h1 id Hreq) as (c & h2 & Hrun & _ & Hc & _).
    exists (Some c), None, h2. split; [exact Hrun |].
    left. exists c. repeat split.
    simpl in Hc. destruct (heap (hg h2) !! c) eqn:E; [eauto |].
    simpl in Hc. exfalso.
    assert (H : (∅ : gmap string value) !! LASTUSED = Some (VTime (clock (hg h1) (ticks (hg h1)))))
      by (rewrite Hc; apply lookup_insert_eq).
    by rewrite lookup_empty in H.
Qed.

Lemma SessionFor_frame (h h1 h2 : hstate) (id : string)
    (o : outcome (sref * option error)) :
  requestSessionId h = (Done (id, None), h1) →
  SessionFor h = (o, h2) →
  hw h2 = hw h1 ∧ hr h2 = hr h1 ∧ draws (hg h2) = draws (hg h1) ∧
  entropy (hg h2) = entropy (hg h1).
Proof.
  intros Hreq Hrun.
  rewrite (SessionFor_after_binding h h1 id Hreq) in Hrun. unfold lift in Hrun.
  destruct (SessionFor_locked_spec id (hg h1))
    as (c & st2 & Hlocked & _ & _ & _ & _ & _ & _ & Hent & Hdr).
  rewrite Hlocked in Hrun. injection Hrun as _ <-. simpl. auto.
Qed.



(** X6: when reading the session cookie fails with an error other than
    absence, [SessionFor] returns that error and no session, and nothing
    at all has changed: no cookie, no record, no clock reading and no
    random bytes used. *)
Theorem SessionFor_cookie_fault (h : hstate) (msg : string) :
  req_fault (hr h) = Some msg →
  SessionFor h = (Done (None, Some (ErrOther msg)), h).
Proof.
  intros Hf. unfold SessionFor, bind.
  rewrite (requestSessionId_fault h msg Hf). reflexivity.
Qed.

Lemma SessionFor_cookie_fault_witness :
  SessionFor (mkH [] bad_header login_state)
  = (Done (None, Some (ErrOther "malformed header")), mkH [] bad_header login_state).
Proof.
  apply (SessionFor_cookie_fault (mkH [] bad_header login_state)
           "malformed header").
  reflexivity.
Defined.



(** ** RemoveSession *)

Lemma Request_Cookie_found (r : Request) (name : string) (c : Cookie) :
  Request_Cookie r name = (Some c, None) →
  c = mkCookie name (Value c) "" 0.
Proof.
  unfold Request_Cookie. intros H.
  destruct (req_fault r); [discriminate |].
  destruct (List.find _ _) as [c0 |] eqn:Hfind; [| discriminate].
  injection H as <-. simpl.
  apply List.find_some in Hfind as [_ Hname].
  apply String.eqb_eq in Hname. by rewrite Hname.
Qed.

Lemma RemoveSession_eq (h : hstate) (c : Cookie) :
  Request_Cookie (hr h) SESSIONID = (Some c, None) →
  RemoveSession h =
  (Done tt,
   mkH (hw h ++ [mkCookie SESSIONID (Value c) "" 0])%list (hr h)
     (set_sessions (delete (Value c) <$> sessions (hg h)) (hg h))).
Proof.
  intros Hc. pose proof (Request_Cookie_found _ _ _ Hc) as Hshape.
  unfold RemoveSession, bind, read_cookie. rewrite Hc. simpl.
  rewrite Hshape. reflexivity.
Qed.

(** X8: for a request that carries a session cookie, [RemoveSession]
    returns normally in every state, also with a nil registry. The
    registry loses the record under the cookie's value and keeps every
    other record; the heap and the request are untouched; the response
    gets one more cookie, which has the session cookie's name, still the
    identifier as value, and MaxAge 0. *)
Theorem RemoveSession_with_cookie (h : hstate) (c : Cookie) :
  Request_Cookie (hr h) SESSIONID = (Some c, None) →
  ∃ h',
    RemoveSession h = (Done tt, h') ∧
    stored_record (hg h') (Value c) = None ∧
    (∀ id, id ≠ Value c → stored_record (hg h') id = stored_record (hg h) id) ∧
    (sessions (hg h) = None → sessions (hg h') = None) ∧
    heap (hg h') = heap (hg h) ∧
    hr h' = hr h ∧
    hw h' = (hw h ++ [mkCookie SESSIONID (Value c) "" 0])%list.
Proof.
  intros Hc. eexists. split; [by apply RemoveSession_eq |]. simpl.
  repeat split.
  - unfold stored_record. simpl.
    destruct (sessions (hg h)) as [m |]; simpl; [| reflexivity].
    by rewrite lookup_delete_eq.
  - intros id Hid. unfold stored_record. simpl.
    destruct (sessions (hg h)) as [m |]; simpl; [| reflexivity].
    by rewrite lookup_delete_ne.
  - intros ->. reflexivity.
Qed.

Lemma RemoveSession_with_cookie_witness :
  ∃ h',
    RemoveSession (mkH [] returning_request login_state) = (Done tt, h') ∧
    stored_record (hg h') "abc123" = None ∧
    hw h' = [mkCookie SESSIONID "abc123" "" 0].
Proof.
  destruct (RemoveSession_with_cookie
              (mkH [] returning_request login_state)
              (mkCookie SESSIONID "abc123" "" 0) eq_refl)
    as (h' & H1 & H2 & _ & _ & _ & _ & H3).
  exists h'. split; [exact H1 | split; [exact H2 | exact H3]].
Defined.

(** X9: after [RemoveSession], a [SessionFor] on the same request, which
    still carries the cookie, starts over: it returns a new record that
    holds the identifier and the last-used time and nothing of what the
    removed record held. *)
Theorem RemoveSession_then_SessionFor (h : hstate) (c : Cookie) :
  Request_Cookie (hr h) SESSIONID = (Some c, None) →
  ∃ h' l h2,
    RemoveSession h = (Done tt, h') ∧
    SessionFor h' = (Done (Some l, None), h2) ∧
    deref (heap (hg h2)) (Some l)
      = <[LASTUSED := VTime (clock (hg h) (ticks (hg h)))]>
          {[ SESSIONID := VString (Value c) ]} ∧
    stored_record (hg h2) (Value c) = Some (deref (heap (hg h2)) (Some l)).
Proof.
  intros Hc.
  assert (Hrem := RemoveSession_eq h c Hc).
  set (h' := mkH _ _ _) in Hrem.
  assert (Hc' : Request_Cookie (hr h') SESSIONID = (Some c, None)) by exact Hc.
  pose proof (requestSessionId_with_cookie h' c Hc') as Hreq.
  destruct (SessionFor_spec h' h' (Value c) Hreq)
    as (l & h2 & Hrun & Hst & Hl & _).
  assert (Hgone : stored_record (hg h') (Value c) = None).
  { unfold stored_record, h'. simpl.
    destruct (sessions (hg h)) as [m |]; simpl; [| reflexivity].
    by rewrite lookup_delete_eq. }
  rewrite Hgone in Hst, Hl.
  exists h', l, h2. split; [exact Hrem |]. split; [exact Hrun |].
  split; [exact Hl |]. rewrite Hl. exact Hst.
Qed.

Lemma RemoveSession_then_SessionFor_witness :
  ∃ h' l h2,
    RemoveSession (mkH [] returning_request login_state) = (Done tt, h') ∧
    SessionFor h' = (Done (Some l, None), h2) ∧
    deref (heap (hg h2)) (Some l) !! "Draft" = None.
Proof.
  destruct (RemoveSession_then_SessionFor
              (mkH [] returning_request login_state)
              (mkCookie SESSIONID "abc123" "" 0) eq_refl)
    as (h' & l & h2 & H1 & H2 & H3 & _).
  exists h', l, h2. split; [exact H1 | split; [exact H2 |]].
  rewrite H3. reflexivity.
Defined.

(** ** Save keeps its own copy *)

(** X10: [Save] stores a copy, not the caller's map: after saving a record
    that has a string identifier into an initialised registry, the
    registry holds the record's content under the identifier, the
    caller's record is unchanged, and whatever the caller does to its
    record afterwards does not reach the registry. *)
Theorem Save_stores_a_copy (l : loc) (st : state) (m : gmap string loc)
    (rec : gmap string value) (id : string) :
  sessions st = Some m →
  heap st !! l = Some rec →
  rec !! SESSIONID = Some (VString id) →
  ∃ st1,
    Save (Some l) st = (Done tt, st1) ∧
    stored_record st1 id = Some rec ∧
    heap st1 !! l = Some rec ∧
    ∀ f, stored_record (caller_update l f st1) id = Some rec.
Proof.
  intros Hm Hl Hid.
  assert (Hidx : index (heap st) (Some l) SESSIONID = VString id)
    by (unfold index; simpl; rewrite Hl; simpl; by rewrite Hid).
  assert (Hne : fresh (dom (heap st)) ≠ l).
  { intros E. pose proof (fresh_heap (heap st)) as Hf. rewrite E in Hf. congruence. }
  eexists. rewrite Save_eq, Hidx. simpl. rewrite Hm, Hl. simpl.
  split; [reflexivity |].
  split; [| split].
  - unfold stored_record. simpl. by rewrite !lookup_insert_eq.
  - simpl. by rewrite lookup_insert_ne.
  - intros f. unfold stored_record, caller_update. simpl.
    rewrite lookup_insert_eq. simpl.
    rewrite lookup_insert_ne by done. by rewrite lookup_insert_eq.
Qed.

Lemma Save_stores_a_copy_witness :
  ∃ st1,
    Save (Some 2%positive) login_state = (Done tt, st1) ∧
    ∀ f, stored_record (caller_update 2%positive f st1) "abc123"
         = Some {[ SESSIONID := VString "abc123"; LASTUSED := VTime 0;
                   "LoggedUser" := VOther "bob" ]}.
Proof.
  destruct (Save_stores_a_copy 2%positive login_state
              {[ "abc123" := 1%positive ]}
              {[ SESSIONID := VString "abc123"; LASTUSED := VTime 0;
                 "LoggedUser" := VOther "bob" ]} "abc123")
    as (st1 & H1 & _ & _ & H2).
  - reflexivity.
  - reflexivity.
  - reflexivity.
  - exists st1. split; [exact H1 | exact H2].
Defined.

(** ** The invariant of the registry *)

Lemma registry_inv_only_drawn (st st' : state) :
  only_drawn st st' → registry_inv st → registry_inv st'.
Proof.
  intros (Hh & Hs & _) Hinv m id l Hm Hl.
  rewrite Hh. rewrite Hs in Hm. eauto.
Qed.

Lemma registry_inv_distinct (st : state) (m : gmap string loc)
    (id id' : string) (l l' : loc) :
  registry_inv st → sessions st = Some m →
  m !! id = Some l → m !! id' = Some l' → id ≠ id' → l ≠ l'.
Proof.
  intros Hinv Hm Hl Hl' Hne <-.
  destruct (Hinv m id l Hm Hl) as (rec & t & Hrec & Hid & _).
  destruct (Hinv m id' l Hm Hl') as (rec' & t' & Hrec' & Hid' & _).
  congruence.
Qed.

Lemma SessionFor_locked_inv (id : string) (st : state) :
  registry_inv st → registry_inv (SessionFor_locked id st).2.
Proof.
  intros Hinv. rewrite SessionFor_locked_eq. cbv zeta. simpl.
  set (now := clock st (ticks st)).
  unfold entry_for.
  destruct (sessions st) as [m |] eqn:Hs; simpl.
  - destruct (m !! id) as [l |] eqn:Hl; simpl.
    + destruct (Hinv m id l Hs Hl) as (rec & t & Hrec & Hid & Ht).
      rewrite Hrec. simpl.
      set (h2 := <[l := <[LASTUSED := VTime now]> rec]> (heap st)).
      assert (Hc : h2 !! fresh (dom h2) = None) by apply fresh_heap.
      intros m' id' l' [= <-] Hl'. cbn [heap]. fold h2.
      destruct (decide (id' = id)) as [-> | Hne].
      * rewrite lookup_insert_eq in Hl'. injection Hl' as <-.
        assert (fresh (dom h2) ≠ l).
        { intros E. rewrite E in Hc. unfold h2 in Hc.
          by rewrite lookup_insert_eq in Hc. }
        exists (<[LASTUSED := VTime now]> rec), now.
        rewrite (lookup_insert_ne h2) by done. unfold h2.
        rewrite (lookup_insert_eq (heap st)).
        rewrite lookup_insert_eq, lookup_insert_ne by done. done.
      * rewrite lookup_insert_ne in Hl' by done.
        destruct (Hinv m id' l' Hs Hl') as (rec' & t' & Hrec' & Hid' & Ht').
        assert (l ≠ l') by (eapply (registry_inv_distinct st m id id'); eauto).
        assert (Hh2 : h2 !! l' = Some rec')
          by (unfold h2; by rewrite lookup_insert_ne).
        assert (fresh (dom h2) ≠ l') by (intros E; rewrite E in Hc; congruence).
        exists rec', t'. by rewrite (lookup_insert_ne h2).
    + set (l := fresh (dom (heap st))).
      assert (Hl0 : heap st !! l = None) by apply fresh_heap.
      rewrite lookup_insert_eq. simpl.
      set (rec := <[LASTUSED := VTime now]> {[ SESSIONID := VString id ]}).
      rewrite insert_insert_eq.
      set (h2 := <[l := rec]> (heap st)).
      assert (Hc : h2 !! fresh (dom h2) = None) by apply fresh_heap.
      intros m' id' l' [= <-] Hl'. cbn [heap]. fold h2.
      destruct (decide (id' = id)) as [-> | Hne].
      * rewrite lookup_insert_eq in Hl'. injection Hl' as <-.
        assert (fresh (dom h2) ≠ l).
        { intros E. rewrite E in Hc. unfold h2 in Hc.
          by rewrite lookup_insert_eq in Hc. }
        exists rec, now. rewrite (lookup_insert_ne h2) by done. unfold h2.
        rewrite (lookup_insert_eq (heap st)). unfold rec.
        rewrite lookup_insert_eq, lookup_insert_ne by done.
        by rewrite lookup_singleton_eq.
      * rewrite lookup_insert_ne in Hl' by done.
        destruct (Hinv m id' l' Hs Hl') as (rec' & t' & Hrec' & Hid' & Ht').
        assert (l ≠ l') by (intros E; rewrite E in Hl0; congruence).
        assert (Hh2 : h2 !! l' = Some rec')
          by (unfold h2; by rewrite lookup_insert_ne).
        assert (fresh (dom h2) ≠ l') by (intros E; rewrite E in Hc; congruence).
        exists rec', t'. by rewrite (lookup_insert_ne h2).
  - rewrite lookup_empty. simpl.
    set (l := fresh (dom (heap st))).
    rewrite lookup_insert_eq. simpl. rewrite insert_insert_eq.
    set (rec := <[LASTUSED := VTime now]> {[ SESSIONID := VString id ]}).
    set (h2 := <[l := rec]> (heap st)).
    assert (Hc : h2 !! fresh (dom h2) = None) by apply fresh_heap.
    intros m' id' l' [= <-] Hl'. cbn [heap]. fold h2.
    destruct (decide (id' = id)) as [-> | Hne].
    + rewrite lookup_insert_eq in Hl'. injection Hl' as <-.
      assert (fresh (dom h2) ≠ l).
      { intros E. rewrite E in Hc. unfold h2 in Hc.
        by rewrite lookup_insert_eq in Hc. }
      exists rec, now. rewrite (lookup_insert_ne h2) by done. unfold h2.
      rewrite (lookup_insert_eq (heap st)). unfold rec.
      rewrite lookup_insert_eq, lookup_insert_ne by done.
      by rewrite lookup_singleton_eq.
    + rewrite lookup_insert_ne in Hl' by done. by rewrite lookup_empty in Hl'.
Qed.

Lemma registry_inv_delete (st : state) (k : string) :
  registry_inv st →
  registry_inv (set_sessions (delete k <$> sessions st) st).
Proof.
  intros Hinv m id l Hm Hl. simpl in *.
  destruct (sessions st) as [m0 |] eqn:Hs; [| discriminate].
  injection Hm as <-.
  apply lookup_delete_Some in Hl as [_ Hl]. eauto.
Qed.

Lemma SessionFor_inv (h : hstate) :
  registry_inv (hg h) → registry_inv (hg (SessionFor h).2).
Proof.
  intros Hinv.
  destruct (requestSessionId_total h) as (id & e & h1 & Hreq & _).
  pose proof (requestSessionId_only_drawn h) as Hdrawn.
  rewrite Hreq in Hdrawn. simpl in Hdrawn.
  pose proof (registry_inv_only_drawn _ _ Hdrawn Hinv) as Hinv1.
  unfold SessionFor, bind. rewrite Hreq.
  destruct e as [e |]; simpl; [exact Hinv1 |].
  unfold lift. pose proof (SessionFor_locked_inv id (hg h1) Hinv1) as H.
  destruct (SessionFor_locked id (hg h1)) as [o g]. exact H.
Qed.

Lemma RemoveSession_inv (h : hstate) :
  registry_inv (hg h) → registry_inv (hg (RemoveSession h).2).
Proof.
  intros Hinv. unfold RemoveSession, bind, read_cookie.
  destruct (Request_Cookie (hr h) SESSIONID) as [[c |] [e |]]; simpl;
    try exact Hinv.
  by apply registry_inv_delete.
Qed.

(** With the invariant one step of the sweep returns normally and keeps
    the invariant. *)
Lemma cleanup_step_inv (k : string) (st : state) :
  registry_inv st →
  ∃ st', cleanup_step k st = (Done tt, st') ∧ registry_inv st'.
Proof.
  intros Hinv.
  destruct (sessions st) as [m |] eqn:Hs.
  - destruct (m !! k) as [l |] eqn:Hl.
    + destruct (Hinv m k l Hs Hl) as (rec & t & Hrec & _ & Ht).
      assert (Hidx : index (heap st) (Some l) LASTUSED = VTime t)
        by (unfold index; simpl; rewrite Hrec; simpl; by rewrite Ht).
      rewrite (cleanup_step_eq k st m l t Hs Hl Hidx).
      eexists. split; [reflexivity |].
      destruct (MAXSESSIONAGE <=? _).
      * intros m' id' l' [= <-] Hl'. cbn [heap].
        apply lookup_delete_Some in Hl' as [_ Hl']. eauto.
      * intros m' id' l' [= <-] Hl'. cbn [heap]. eauto.
    + exists st. split; [| exact Hinv].
      unfold cleanup_step, bind, registry_index. by rewrite Hs, Hl.
  - exists st. split; [| exact Hinv].
    unfold cleanup_step, bind, registry_index. by rewrite Hs.
Qed.

Lemma cleanup_loop_inv (order : list string) (st : state) :
  registry_inv st →
  ∃ st', cleanup_loop order st = (Done tt, st') ∧ registry_inv st'.
Proof.
  revert st. induction order as [| k rest IH]; intros st Hinv; simpl.
  - exists st. split; [reflexivity | exact Hinv].
  - destruct (cleanup_step_inv k st Hinv) as (st1 & Hstep & Hinv1).
    destruct (IH st1 Hinv1) as (st' & Hrest & Hinv').
    exists st'. split; [| exact Hinv'].
    unfold bind. by rewrite Hstep.
Qed.

Lemma Save_inv (s : sref) (st : state) :
  registry_inv st → well_behaved st (CallSave s) →
  registry_inv (Save s st).2.
Proof.
  intros Hinv (id & t & Hid & Ht). rewrite Save_eq, Hid. cbv zeta.
  pose proof (fresh_heap (heap st)) as Hfresh.
  set (c := fresh (dom (heap st))) in *.
  destruct (sessions st) as [m |] eqn:Hs; simpl.
  - intros m' id' l' [= <-] Hl'. cbn [heap set_sessions set_heap].
    destruct (decide (id' = id)) as [-> | Hne].
    + rewrite lookup_insert_eq in Hl'. injection Hl' as <-.
      exists (deref (heap st) s), t. rewrite lookup_insert_eq.
      unfold index in Hid, Ht. split; [reflexivity |].
      destruct (deref (heap st) s !! SESSIONID) as [v |]; [| discriminate].
      destruct (deref (heap st) s !! LASTUSED) as [v' |]; [| discriminate].
      simpl in *. by subst.
    + rewrite lookup_insert_ne in Hl' by done.
      destruct (Hinv m id' l' Hs Hl') as (rec' & t' & Hrec' & Hid' & Ht').
      exists rec', t'. rewrite lookup_insert_ne; [done |].
      intros E. rewrite E in Hfresh. congruence.
  - intros m' id' l' Hm'. simpl in Hm'. congruence.
Qed.

Lemma caller_update_inv (l : loc) (f : gmap string value → gmap string value)
    (st : state) :
  registry_inv st → ¬ registry_loc st l →
  registry_inv (caller_update l f st).
Proof.
  intros Hinv Hnot m id l' Hm Hl'. simpl in Hm.
  destruct (Hinv m id l' Hm Hl') as (rec & t & Hrec & Hid & Ht).
  exists rec, t. unfold caller_update. cbn [heap set_heap].
  rewrite lookup_insert_ne; [done |].
  intros <-. apply Hnot. by exists m, id.
Qed.

Lemma exec_inv (c : call) (st : state) :
  registry_inv st → well_behaved st c → registry_inv (exec c st).
Proof.
  intros Hinv Hok. destruct c as [w r | w r | s | order | l f]; simpl.
  - by apply (SessionFor_inv (mkH w r st)).
  - by apply (RemoveSession_inv (mkH w r st)).
  - by apply Save_inv.
  - unfold cleanupSessions.
    destruct (cleanup_loop_inv order st Hinv) as (st' & -> & Hinv'). exact Hinv'.
  - by apply caller_update_inv.
Qed.

(** X11: the data invariant of the registry. Starting from a new process,
    as long as callers save only records with a string identifier and a
    last-used time and change only maps of their own, after any sequence
    of [SessionFor], [RemoveSession], [Save], sweeps and caller updates
    every entry of the registry refers to a map that holds the entry's own
    key as identifier and a time as last-used value. In such a state a
    sweep, in whatever order it visits the keys, returns without panic. *)
Theorem registry_invariant (clk : nat → Z) (ent : nat → rand_reply)
    (cs : list call) :
  well_behaved_trace cs (initial clk ent) →
  registry_inv (exec_all cs (initial clk ent)) ∧
  ∀ order, ∃ st',
    cleanupSessions order (exec_all cs (initial clk ent)) = (Done tt, st').
Proof.
  intros Hok.
  assert (Hinv : registry_inv (exec_all cs (initial clk ent))).
  { assert (H0 : registry_inv (initial clk ent))
      by (intros m id l Hm; discriminate).
    revert H0 Hok. generalize (initial clk ent).
    induction cs as [| c cs IH]; intros st Hinv Hok; simpl.
    - exact Hinv.
    - destruct Hok as [Hc Hrest]. apply IH; [| exact Hrest].
      by apply exec_inv. }
  split; [exact Hinv |]. intros order.
  destruct (cleanup_loop_inv order _ Hinv) as (st' & Hrun & _).
  by exists st'.
Qed.

Lemma registry_invariant_witness :
  ∃ st',
    cleanupSessions ["abc123"]
      (exec_all [CallSessionFor [] returning_request;
                 CallSave (Some 2%positive);
                 CallRemoveSession [] no_cookies;
                 CallCleanup ["abc123"]]
         (initial seconds_clock ones_source)) = (Done tt, st').
Proof.
  destruct (registry_invariant seconds_clock ones_source
              [CallSessionFor [] returning_request;
               CallSave (Some 2%positive);
               CallRemoveSession [] no_cookies;
               CallCleanup ["abc123"]]) as [_ H].
  - simpl. split; [exact I |]. split; [| split; [exact I | split; exact I]].
    exists "abc123", 0. split; vm_compute; reflexivity.
  - exact (H ["abc123"]).
Defined.

(** ** More on the sweep *)

Lemma cleanup_step_panics (k : string) (st : state) (m : gmap string loc)
    (l : loc) :
  sessions st = Some m → m !! k = Some l →
  (∀ t, index (heap st) (Some l) LASTUSED ≠ VTime t) →
  cleanup_step k st = (Panicked (BadTypeAssert "time.Time"), ticked st).
Proof.
  intros Hs Hk Hbad.
  unfold cleanup_step, bind, registry_index, expired, bind, time_Now, map_index.
  rewrite Hs, Hk. simpl.
  destruct (index (heap st) (Some l) LASTUSED) as [| v | t | v] eqn:E;
    try reflexivity.
  by destruct (Hbad t).
Qed.

Lemma cleanup_step_absent (k : string) (st : state) (m : gmap string loc) :
  sessions st = Some m → m !! k = None → cleanup_step k st = (Done tt, st).
Proof.
  intros Hs Hk. unfold cleanup_step, bind, registry_index. by rewrite Hs, Hk.
Qed.

Lemma cleanup_loop_panics (k : string) (l : loc) (order : list string) :
  ∀ (st : state) (m : gmap string loc),
    sessions st = Some m → NoDup order → k ∈ order → m !! k = Some l →
    (∀ t, index (heap st) (Some l) LASTUSED ≠ VTime t) →
    ∃ st' m',
      cleanup_loop order st = (Panicked (BadTypeAssert "time.Time"), st') ∧
      heap st' = heap st ∧ sessions st' = Some m' ∧ m' !! k = Some l ∧
      (∀ k', is_Some (m' !! k') → m' !! k' = m !! k').
Proof.
  induction order as [| k0 rest IH]; intros st m Hs Hnd Hin Hk Hbad.
  - by apply elem_of_nil in Hin.
  - apply NoDup_cons in Hnd as [Hk0 Hnd]. simpl. unfold bind.
    destruct (decide (k0 = k)) as [-> | Hne].
    + rewrite (cleanup_step_panics k st m l Hs Hk Hbad).
      exists (ticked st), m. auto.
    + apply elem_of_cons in Hin as [-> | Hin]; [done |].
      assert (Hcont : ∀ st1 m1,
                sessions st1 = Some m1 → heap st1 = heap st →
                m1 !! k = Some l →
                (∀ k', is_Some (m1 !! k') → m1 !! k' = m !! k') →
                ∃ st' m',
                  cleanup_loop rest st1
                    = (Panicked (BadTypeAssert "time.Time"), st') ∧
                  heap st' = heap st ∧ sessions st' = Some m' ∧
                  m' !! k = Some l ∧
                  (∀ k', is_Some (m' !! k') → m' !! k' = m !! k')).
      { intros st1 m1 Hs1 Hh1 Hk1 Hsub.
        destruct (IH st1 m1 Hs1 Hnd Hin Hk1) as (st' & m' & Hrun & Hh & Hs' & Hk' & Hsub').
        { by rewrite Hh1. }
        exists st', m'. split; [exact Hrun |]. split; [congruence |].
        split; [exact Hs' |]. split; [exact Hk' |].
        intros k' Hsome. rewrite (Hsub' k' Hsome). apply Hsub.
        by rewrite <- (Hsub' k' Hsome). }
      destruct (m !! k0) as [l0 |] eqn:Hl0.
      * destruct (index (heap st) (Some l0) LASTUSED) as [| v | t | v] eqn:E.
        1, 2, 4: rewrite (cleanup_step_panics k0 st m l0 Hs Hl0)
                   by (intros t; rewrite E; discriminate);
                 exists (ticked st), m; auto.
        rewrite (cleanup_step_eq k0 st m l0 t Hs Hl0 E).
        destruct (MAXSESSIONAGE <=? _).
        -- apply (Hcont _ (delete k0 m)); [reflexivity | reflexivity | |].
           ++ by rewrite lookup_delete_ne.
           ++ intros k' [x Hx]. apply lookup_delete_Some in Hx as [Hx1 Hx2].
              by rewrite lookup_delete_ne.
        -- apply (Hcont _ m); auto.
      * rewrite (cleanup_step_absent k0 st m Hs Hl0). apply (Hcont st m); auto.
Qed.

(** X12: a record without a time under the last-used key stops the sweep.
    If the registry holds such a record, the sweep panics on the type
    assertion, whatever the other records hold and in whatever order the
    keys are visited; the heap is untouched, the offending record is still
    registered and no record was added or changed. *)
Theorem cleanupSessions_panics_without_time
    (order : list string) (st : state) (k : string)
    (rec : gmap string value) :
  visits order st →
  stored_record st k = Some rec →
  (∀ t, rec !! LASTUSED ≠ Some (VTime t)) →
  ∃ st',
    cleanupSessions order st = (Panicked (BadTypeAssert "time.Time"), st') ∧
    heap st' = heap st ∧
    stored_record st' k = Some rec ∧
    (∀ k' rec', stored_record st' k' = Some rec' →
                stored_record st k' = Some rec').
Proof.
  intros [Hnd Hvis] Hrec Hbad.
  destruct (stored_record_inv st k rec Hrec) as (m & l & Hs & Hl & Hdef).
  assert (Hin : k ∈ order) by (apply Hvis; eauto).
  destruct (cleanup_loop_panics k l order st m Hs Hnd Hin Hl)
    as (st' & m' & Hrun & Hh & Hs' & Hk' & Hsub).
  { intros t E. apply (Hbad t). unfold index in E. rewrite <- Hdef in E.
    destruct (rec !! LASTUSED) as [v |]; simpl in E; congruence. }
  exists st'. split; [exact Hrun |]. split; [exact Hh |]. split.
  - unfold stored_record. by rewrite Hs', Hk', Hh, Hdef.
  - intros k' rec'. unfold stored_record. rewrite Hs', Hs, Hh.
    destruct (m' !! k') as [l' |] eqn:E; [| discriminate].
    by rewrite <- (Hsub k') by (rewrite E; eauto); rewrite E.
Qed.

Lemma cleanupSessions_panics_without_time_witness :
  ∃ st',
    cleanupSessions ["old"; "broken"] untimed_state
      = (Panicked (BadTypeAssert "time.Time"), st') ∧
    is_Some (stored_record st' "broken").
Proof.
  destruct (cleanupSessions_panics_without_time ["old"; "broken"]
              untimed_state "broken"
              {[ SESSIONID := VString "broken"; LASTUSED := VString "yesterday" ]})
    as (st' & H1 & _ & H2 & _).
  - apply visits_intro; [compute_done | vm_compute; reflexivity].
  - reflexivity.
  - intros t. vm_compute. discriminate.
  - exists st'. split; [exact H1 |]. rewrite H2. eauto.
Defined.

Lemma cleanup_loop_log (order : list string) :
  ∀ (st : state) (m : gmap string loc),
    sessions st = Some m →
    NoDup order →
    (∀ k, k ∈ order →
          ∃ l t, m !! k = Some l ∧ index (heap st) (Some l) LASTUSED = VTime t) →
    ∃ st' m',
      cleanup_loop order st = (Done tt, st') ∧
      sessions st' = Some m' ∧
      (∀ k, k ∉ order → m' !! k = m !! k) ∧
      entropy st' = entropy st ∧ draws st' = draws st ∧
      logged st'
        = (logged st
           ++ (expiry_line <$> filter (fun k => m' !! k = None) order))%list.
Proof.
  induction order as [| k rest IH]; intros st m Hs Hnd Hts.
  - exists st, m. simpl. rewrite app_nil_r. auto 10.
  - apply NoDup_cons in Hnd as [Hk Hnd].
    destruct (Hts k) as (l & t & Hl & Ht); [by left |].
    simpl. unfold bind. rewrite (cleanup_step_eq k st m l t Hs Hl Ht).
    set (gone := MAXSESSIONAGE <=? time_Sub (clock st (ticks st)) t).
    set (m1 := if gone then delete k m else m).
    set (st1 := if gone then _ else _).
    assert (Hs1 : sessions st1 = Some m1) by (unfold st1, m1; by destruct gone).
    assert (Hh1 : heap st1 = heap st) by (unfold st1; by destruct gone).
    assert (He1 : entropy st1 = entropy st) by (unfold st1; by destruct gone).
    assert (Hd1 : draws st1 = draws st) by (unfold st1; by destruct gone).
    assert (Hm1 : ∀ k', k' ≠ k → m1 !! k' = m !! k').
    { intros k' Hne. unfold m1. destruct gone; [| reflexivity].
      by rewrite lookup_delete_ne. }
    destruct (IH st1 m1 Hs1 Hnd)
      as (st' & m' & Hrun & Hs' & Hout & He' & Hd' & Hlog).
    { intros k' Hk'. destruct (Hts k') as (l' & t' & Hl' & Ht''); [by right |].
      exists l', t'. rewrite Hh1. split; [| exact Ht''].
      rewrite Hm1; [exact Hl' |]. intros ->. contradiction. }
    exists st', m'. split; [exact Hrun |]. split; [exact Hs' |].
    split; [| split; [congruence | split; [congruence |]]].
    + intros k' Hk'. apply not_elem_of_cons in Hk' as [Hne Hk'].
      rewrite Hout by exact Hk'. by apply Hm1.
    + rewrite Hlog, filter_cons.
      assert (Hkm : m' !! k = m1 !! k) by (by apply Hout).
      unfold st1, m1 in *. destruct gone.
      * rewrite lookup_delete_eq in Hkm.
        rewrite decide_True by exact Hkm. simpl.
        by rewrite <- app_assoc.
      * rewrite Hl in Hkm. rewrite decide_False by congruence. reflexivity.
Qed.

(** X13: the sweep logs each removal and nothing else. Over a registry
    whose records all carry a last-used time, the log grows by exactly one
    line per removed record, in the order the keys were visited; the heap
    and the random source are untouched and the clock is read once per
    record. *)
Theorem cleanupSessions_logs_each_removal (order : list string) (st : state) :
  visits order st →
  (∀ k rec, stored_record st k = Some rec →
            ∃ t, rec !! LASTUSED = Some (VTime t)) →
  ∃ st',
    cleanupSessions order st = (Done tt, st') ∧
    logged st'
      = (logged st
         ++ (expiry_line <$>
             filter (fun k => stored_record st' k = None) order))%list ∧
    heap st' = heap st ∧
    ticks st' = (ticks st + length order)%nat ∧
    draws st' = draws st.
Proof.
  intros [Hnd Hvis] Hts. unfold cleanupSessions.
  destruct (sessions st) as [m |] eqn:Hs.
  - assert (Hall : ∀ k, k ∈ order →
              ∃ l t, m !! k = Some l ∧
                     index (heap st) (Some l) LASTUSED = VTime t).
    { intros k [m0 [l [Hm0 Hl]]]%Hvis.
      assert (m0 = m) by congruence. subst m0.
      destruct (Hts k (deref (heap st) (Some l))) as [t Ht].
      { unfold stored_record. by rewrite Hs, Hl. }
      exists l, t. split; [exact Hl |]. unfold index. by rewrite Ht. }
    destruct (cleanup_loop_log order st m Hs Hnd Hall)
      as (st' & m' & Hrun & Hs' & _ & _ & Hd & Hlog).
    destruct (cleanup_loop_spec order st m Hs Hnd Hall)
      as (st2 & m2 & Hrun2 & _ & Hh & _ & Htk & _).
    assert (st2 = st') by congruence. subst st2.
    exists st'. split; [exact Hrun |]. split; [| auto].
    rewrite Hlog. do 2 f_equal.
    apply list_filter_iff. intros k. unfold stored_record. rewrite Hs'.
    destruct (m' !! k); split; (done || discriminate).
  - assert (order = []) as ->.
    { destruct order as [| k rest]; [reflexivity |].
      destruct (proj1 (Hvis k)) as (m & l & Hm & _); [by left | discriminate]. }
    exists st. simpl. rewrite app_nil_r. split; [reflexivity |].
    split; [reflexivity |]. split; [reflexivity |]. split; [lia | reflexivity].
Qed.

Lemma cleanupSessions_logs_each_removal_witness :
  ∃ st',
    cleanupSessions ["young"; "old"] sweep_state = (Done tt, st') ∧
    logged st' = ["Session old has expired, removing..."].
Proof.
  destruct (cleanupSessions_logs_each_removal ["young"; "old"] sweep_state)
    as (st' & Hrun & Hlog & _).
  - apply visits_intro; [compute_done | vm_compute; reflexivity].
  - apply timestamps_intro. compute_done.
  - exists st'. split; [exact Hrun |].
    assert (Hst : st' = (cleanupSessions ["young"; "old"] sweep_state).2)
      by (by rewrite Hrun).
    rewrite Hlog, Hst. vm_compute. reflexivity.
Defined.

(** ** Helpers of the web layer *)

(** X14: [indexOf] returns the element for an index inside the slice and
    the empty string for a nil slice or an index from the length upwards.
    It panics on a slice that is not nil for every negative index, also
    on the empty slice, and for the largest integer, where [index+1]
    wraps around. *)
Theorem indexOf_bounds (l : list string) (index : Z) :
  minInt <= index <= maxInt →
  Z.of_nat (length l) <= maxInt →
  indexOf None index = Returned "" ∧
  (0 <= index < Z.of_nat (length l) →
   ∃ s, l !! Z.to_nat index = Some s ∧ indexOf (Some l) index = Returned s) ∧
  (Z.of_nat (length l) <= index < maxInt →
   indexOf (Some l) index = Returned "") ∧
  (index < 0 ∨ index = maxInt → indexOf (Some l) index = IndexOutOfRange).
Proof.
  unfold minInt, maxInt. intros Hi Hl. split; [reflexivity |].
  assert (Hwrap : index < 2 ^ 63 - 1 → int_wrap (index + 1) = index + 1).
  { intros H. unfold int_wrap.
    rewrite Z.mod_small by lia. lia. }
  assert (Hmax : index = 2 ^ 63 - 1 → int_wrap (index + 1) = - 2 ^ 63).
  { intros ->. reflexivity. }
  unfold indexOf, slice_index. split; [| split].
  - intros Hin. rewrite Hwrap by lia.
    destruct (Z.ltb_spec (Z.of_nat (length l)) (index + 1)); [lia |].
    destruct (Z.leb_spec 0 index); [| lia].
    destruct (Z.ltb_spec index (Z.of_nat (length l))); [| lia]. simpl.
    destruct (l !! Z.to_nat index) as [s |] eqn:E; [eauto |].
    apply lookup_ge_None in E. lia.
  - intros Hout. rewrite Hwrap by lia.
    destruct (Z.ltb_spec (Z.of_nat (length l)) (index + 1)); [reflexivity | lia].
  - intros [Hneg | Hmx].
    + rewrite Hwrap by lia.
      destruct (Z.ltb_spec (Z.of_nat (length l)) (index + 1)); [lia |].
      destruct (Z.leb_spec 0 index); [lia | reflexivity].
    + rewrite (Hmax Hmx).
      destruct (Z.ltb_spec (Z.of_nat (length l)) (- 2 ^ 63)); [lia |].
      destruct (Z.leb_spec 0 index); [| lia].
      destruct (Z.ltb_spec index (Z.of_nat (length l))); [lia | reflexivity].
Qed.

Lemma indexOf_bounds_witness :
  indexOf (Some ["a"; "b"]) 1 = Returned "b" ∧
  indexOf (Some ["a"; "b"]) 2 = Returned "" ∧
  indexOf (Some []) (-1) = IndexOutOfRange ∧
  indexOf None (-1) = Returned "".
Proof.
  destruct (indexOf_bounds ["a"; "b"] 1) as (_ & H1 & _); [by compute | by compute |].
  destruct (indexOf_bounds ["a"; "b"] 2) as (_ & _ & H2 & _); [by compute | by compute |].
  destruct (indexOf_bounds [] (-1)) as (H4 & _ & _ & H3); [by compute | by compute |].
  split; [| split; [| split]].
  - destruct H1 as (s & Hs & ->); [simpl; lia |]. simpl in Hs. congruence.
  - apply H2. unfold maxInt. simpl. lia.
  - apply H3. left. lia.
  - exact H4.
Defined.

Lemma substring_all (s : string) : String.substring 0 (String.length s) s = s.
Proof. induction s as [| c s IH]; simpl; [reflexivity | by rewrite IH]. Qed.

Lemma substring_skip (p s : string) (m : nat) :
  String.substring (String.length p) m (p ++ s) = String.substring 0 m s.
Proof. induction p as [| c p IH]; simpl; [reflexivity | exact IH]. Qed.

Lemma length_append (p s : string) :
  String.length (p ++ s) = (String.length p + String.length s)%nat.
Proof. induction p as [| c p IH]; simpl; [reflexivity | by rewrite IH]. Qed.

Lemma substring_split (s : string) (n : nat) :
  (n <= String.length s)%nat →
  s = String.substring 0 n s
      ++ String.substring n (String.length s - n) s.
Proof.
  revert n. induction s as [| c s IH]; intros n Hn; simpl in *.
  - assert (n = 0%nat) as -> by lia. reflexivity.
  - destruct n as [| n]; simpl.
    + by rewrite substring_all.
    + unfold String.append. fold String.append.
      rewrite <- IH by lia. reflexivity.
Qed.

Lemma HasSuffix_spec (s suffix : string) :
  HasSuffix s suffix = true ↔ ∃ p, s = p ++ suffix.
Proof.
  unfold HasSuffix. split.
  - intros [Hlen Heq]%andb_prop.
    apply Nat.leb_le in Hlen. apply String.eqb_eq in Heq.
    exists (String.substring 0 (String.length s - String.length suffix) s).
    pose proof (substring_split s (String.length s - String.length suffix)) as H.
    replace (String.length s - (String.length s - String.length suffix))%nat
      with (String.length suffix) in H by lia.
    rewrite Heq in H. apply H. lia.
  - intros [p ->]. rewrite length_append.
    replace (String.length p + String.length suffix - String.length suffix)%nat
      with (String.length p) by lia.
    rewrite substring_skip, substring_all, String.eqb_refl.
    rewrite andb_true_r. apply Nat.leb_le. lia.
Qed.

Lemma append_assoc (a b c : string) : (a ++ b) ++ c = a ++ (b ++ c).
Proof.
  induction a as [| x a IH]; [reflexivity |].
  unfold String.append. fold String.append. by rewrite IH.
Qed.

(** X15: the handler of [certServer] answers "not found" exactly for the
    paths that do not end in ".pem"; for every other path it sets the
    download headers, with the path as file name. The test for ".key.pem"
    changes nothing: every path that ends in ".key.pem", the private key
    files, is let through like the certificates. *)
Theorem certServer_lets_pem_through (path : string) :
  (certServer path = NotFound ↔ ¬ ∃ p, path = p ++ ".pem") ∧
  ((∃ p, path = p ++ ".pem") →
   certServer path
   = Download ("attachment; filename=" ++ path) "application/x-pem-file") ∧
  (∀ p, certServer (p ++ ".key.pem") ≠ NotFound).
Proof.
  assert (Hkey : HasSuffix path ".key.pem" = true → HasSuffix path ".pem" = true).
  { intros [p ->]%HasSuffix_spec. apply HasSuffix_spec.
    exists (p ++ ".key"). by rewrite append_assoc. }
  unfold certServer. split; [| split].
  - destruct (HasSuffix path ".pem") eqn:Hpem.
    + rewrite andb_false_r. split; [discriminate |].
      intros Hno. exfalso. apply Hno. by apply HasSuffix_spec.
    + destruct (HasSuffix path ".key.pem") eqn:Hk.
      { discriminate (Hkey eq_refl). }
      simpl. split; [| reflexivity].
      intros _ Hex. apply HasSuffix_spec in Hex. congruence.
  - intros Hex%HasSuffix_spec. rewrite Hex. by rewrite andb_false_r.
  - intros p.
    assert (H : HasSuffix (p ++ ".key.pem") ".key.pem" = true)
      by (apply HasSuffix_spec; eauto).
    unfold certServer. rewrite H. discriminate.
Qed.

Lemma certServer_lets_pem_through_witness :
  certServer "/ca/root.key.pem"
    = Download "attachment; filename=/ca/root.key.pem" "application/x-pem-file" ∧
  certServer "/ca/root.key.pem" ≠ NotFound.
Proof.
  destruct (certServer_lets_pem_through "/ca/root.key.pem") as (_ & H & _).
  split.
  - apply H. by exists "/ca/root.key".
  - rewrite H by (by exists "/ca/root.key"). discriminate.
Defined.

(** ** The access control of the web layer *)

(** The user in the copy [SessionFor] returns is the user the registry
    held for the identifier. *)
Lemma SessionFor_user (h h1 : hstate) (id : string) :
  requestSessionId h = (Done (id, None), h1) →
  ∃ c h2,
    SessionFor h = (Done (Some c, None), h2) ∧
    index (heap (hg h2)) (Some c) LOGGEDUSER = registered_user (hg h) id ∧
    stored_record (hg h2) id = Some (deref (heap (hg h2)) (Some c)) ∧
    (registry_inv (hg h) →
     index (heap (hg h2)) (Some c) SESSIONID = VString id) ∧
    heap (hg h) !! c = None.
Proof.
  intros Hreq.
  destruct (SessionFor_spec h h1 id Hreq)
    as (c & h2 & Hrun & Hst & Hc & _ & Hfresh & _).
  exists c, h2. split; [exact Hrun |].
  split; [| split; [by rewrite Hst, Hc | split; [| exact Hfresh]]].
  - unfold index, registered_user. rewrite Hc.
    rewrite lookup_insert_ne by done.
    destruct (stored_record (hg h) id) as [rec |]; simpl; [reflexivity |].
    by rewrite lookup_singleton_ne.
  - intros Hinv. unfold index. rewrite Hc.
    rewrite lookup_insert_ne by done.
    destruct (stored_record (hg h) id) as [rec |] eqn:Hrec; simpl.
    + destruct (stored_record_inv _ _ _ Hrec) as (m & l & Hm & Hl & ->).
      destruct (Hinv m id l Hm Hl) as (rec' & t & Hrec' & Hid & _).
      simpl. rewrite Hrec'. simpl. by rewrite Hid.
    + by rewrite lookup_singleton_eq.
Qed.

Lemma accessControlHandler_without_user (pg : page) :
  fakedLogin pg = false →
  (∀ id h1, requestSessionId (ph pg) = (Done (id, None), h1) →
            registered_user (hg (ph pg)) id = VNil) →
  ∀ h h', accessControlHandler h pg = accessControlHandler h' pg.
Proof.
  intros Hfake Huser h h'.
  destruct (requestSessionId_total (ph pg)) as (id & e & h1 & Hreq & _).
  destruct e as [e |].
  - unfold accessControlHandler, bind, lift_page.
    unfold SessionFor, bind. rewrite Hreq. reflexivity.
  - destruct (SessionFor_user (ph pg) h1 id Hreq)
      as (c & h2 & Hrun & Hu & _).
    rewrite (Huser id h1 Hreq) in Hu.
    unfold accessControlHandler, bind, lift_page.
    rewrite Hrun. simpl. unfold map_index. simpl. rewrite Hu. simpl.
    rewrite Hfake. reflexivity.
Qed.

(** X16: the guarded handler is not run for a request whose session has
    no user. With faked login off, if the identifier the request resolves
    to has no user in the registry, or the request resolves to no
    identifier at all, the outcome of [accessControlHandler] is the same
    whatever handler it guards; and when an identifier was obtained and
    the registry is sound, what happens instead is that the "login"
    template is executed with that identifier in its page status. *)
Theorem accessControlHandler_denies (pg : page) :
  fakedLogin pg = false →
  (∀ id h1, requestSessionId (ph pg) = (Done (id, None), h1) →
            registered_user (hg (ph pg)) id = VNil) →
  (∀ h h', accessControlHandler h pg = accessControlHandler h' pg) ∧
  (∀ h id h1,
      requestSessionId (ph pg) = (Done (id, None), h1) →
      registry_inv (hg (ph pg)) →
      ∃ pg' ps tail,
        accessControlHandler h pg = (Done tt, pg') ∧
        ps !! SESSIONID = Some (PValue (VString id)) ∧
        ps !! REQUEST = Some (PRequest (hr (ph pg'))) ∧
        out pg' = (out pg ++ Rendered "login" ps :: tail)%list).
Proof.
  intros Hfake Huser.
  split; [by apply accessControlHandler_without_user |].
  intros h id h1 Hreq Hinv.
  destruct (SessionFor_user (ph pg) h1 id Hreq)
    as (c & h2 & Hrun & Hu & _ & Hsid & _).
  rewrite (Huser id h1 Hreq) in Hu. specialize (Hsid Hinv).
  unfold accessControlHandler, bind, lift_page.
  rewrite Hrun. simpl. unfold map_index. simpl. rewrite Hu. simpl.
  rewrite Hfake. unfold lift. simpl. rewrite Id_eq, Hsid. simpl.
  destruct (template_failure pg _ _) as [e |]; simpl;
    eexists _, _, _; (split; [reflexivity |]);
    (split; [apply lookup_insert_eq |]);
    (split; [by unfold newPageStatus;
               rewrite lookup_insert_ne, lookup_singleton_eq |]);
    simpl; rewrite <- ?app_assoc; reflexivity.
Qed.

Lemma accessControlHandler_denies_witness :
  accessControlHandler (ret tt)
    (mkPage (mkH [] returning_request login_state) false no_failure [])
  = accessControlHandler hello
      (mkPage (mkH [] returning_request login_state) false no_failure []).
Proof.
  apply (accessControlHandler_denies
           (mkPage (mkH [] returning_request login_state) false no_failure [])).
  - reflexivity.
  - intros id h1 H. vm_compute in H. injection H as <- _. reflexivity.
Defined.

(** X17: the guarded handler is run for a request whose session has a
    user. If the identifier the request resolves to has a user in the
    registry, [accessControlHandler] does what [SessionFor] does, which
    renews the last-used time, and then runs the guarded handler, and
    nothing else: no login page, no error answer. *)
Theorem accessControlHandler_serves (h : M page unit) (pg : page)
    (id : string) (h1 : hstate) :
  requestSessionId (ph pg) = (Done (id, None), h1) →
  registered_user (hg (ph pg)) id ≠ VNil →
  ∃ s h2,
    SessionFor (ph pg) = (Done (Some s, None), h2) ∧
    accessControlHandler h pg = h (set_ph h2 pg).
Proof.
  intros Hreq Huser.
  destruct (SessionFor_user (ph pg) h1 id Hreq) as (c & h2 & Hrun & Hu & _).
  exists c, h2. split; [exact Hrun |].
  unfold accessControlHandler, bind, lift_page.
  rewrite Hrun. simpl. unfold map_index. simpl. rewrite Hu.
  destruct (registered_user (hg (ph pg)) id); [done | | |];
    simpl; unfold set_ph; by destruct h2.
Qed.

Lemma accessControlHandler_serves_witness :
  ∃ pg',
    accessControlHandler hello
      (mkPage (mkH [] returning_request member_state) false no_failure [])
      = (Done tt, pg') ∧
    out pg' = [StderrLine "served"].
Proof.
  destruct (accessControlHandler_serves hello
              (mkPage (mkH [] returning_request member_state) false no_failure [])
              "abc123" (mkH [] returning_request member_state))
    as (s & h2 & H1 & H2).
  - reflexivity.
  - vm_compute. discriminate.
  - eexists. rewrite H2. split; reflexivity.
Defined.

(** X18: a faked login is a real one for the registry. With faked login
    on and a sound registry, a request whose session has no user gets the
    faked user stored in the registry under its identifier before the
    guarded handler runs; nothing is put out before the handler. The
    session is therefore served from then on, also once faked login is
    off again. *)
Theorem accessControlHandler_faked_login (h : M page unit) (pg : page)
    (id : string) (h1 : hstate) :
  fakedLogin pg = true →
  requestSessionId (ph pg) = (Done (id, None), h1) →
  registered_user (hg (ph pg)) id = VNil →
  registry_inv (hg (ph pg)) →
  ∃ pg2,
    accessControlHandler h pg = h pg2 ∧
    registered_user (hg (ph pg2)) id = faked_user ∧
    out pg2 = out pg ∧ hw (ph pg2) = hw h1 ∧ hr (ph pg2) = hr h1.
Proof.
  intros Hfake Hreq Huser Hinv.
  destruct (SessionFor_user (ph pg) h1 id Hreq)
    as (c & h2 & Hrun & Hu & Hst & Hsid & _).
  destruct (SessionFor_frame (ph pg) h1 h2 id _ Hreq Hrun) as (Hw & Hr & _).
  rewrite Huser in Hu. specialize (Hsid Hinv).
  assert (Hsess : ∃ m2, sessions (hg h2) = Some m2).
  { unfold stored_record in Hst.
    destruct (sessions (hg h2)) as [m2 |]; [eauto | discriminate]. }
  destruct Hsess as [m2 Hm2].
  set (g3 := set_heap (heap_assign c LOGGEDUSER faked_user (heap (hg h2))) (hg h2)).
  assert (Hsid3 : index (heap g3) (Some c) SESSIONID = VString id).
  { unfold index, g3, heap_assign in *. simpl in *.
    rewrite lookup_insert_eq. simpl. by rewrite lookup_insert_ne. }
  assert (Hsave : Save (Some c) g3
                  = (Done tt,
                     set_sessions (Some (<[id := fresh (dom (heap g3))]> m2))
                       (set_heap (<[fresh (dom (heap g3))
                                    := deref (heap g3) (Some c)]> (heap g3)) g3))).
  { rewrite Save_eq, Hsid3. simpl. by rewrite Hm2. }
  eexists.
  split.
  - unfold accessControlHandler, bind, lift_page.
    rewrite Hrun. simpl. unfold map_index. simpl. rewrite Hu. simpl.
    rewrite Hfake. unfold lift, map_assign. simpl. fold g3.
    rewrite Hsave. simpl. reflexivity.
  - simpl. split; [| auto].
    unfold registered_user, stored_record. simpl.
    rewrite !lookup_insert_eq. simpl.
    unfold g3, heap_assign. simpl. rewrite lookup_insert_eq. simpl.
    by rewrite lookup_insert_eq.
Qed.

Lemma accessControlHandler_faked_login_witness :
  ∃ pg2,
    accessControlHandler hello
      (mkPage (mkH [] returning_request login_state) true no_failure [])
      = hello pg2 ∧
    registered_user (hg (ph pg2)) "abc123" = faked_user.
Proof.
  destruct (accessControlHandler_faked_login hello
              (mkPage (mkH [] returning_request login_state) true no_failure [])
              "abc123" (mkH [] returning_request login_state))
    as (pg2 & H1 & H2 & _).
  - reflexivity.
  - reflexivity.
  - reflexivity.
  - intros m id l [= <-] Hl.
    apply lookup_singleton_Some in Hl as [<- <-].
    eexists _, 0. split; [reflexivity |]. split; reflexivity.
  - exists pg2. split; [exact H1 | exact H2].
Defined.

(** X19: logging out closes the gate. After [RemoveSession] on a request
    that carries a session cookie, [accessControlHandler] with faked login
    off no longer runs the guarded handler for that request, whoever was
    logged in before: its outcome is the same for every guarded handler. *)
Theorem RemoveSession_then_denied (pg : page) (c : Cookie) :
  fakedLogin pg = false →
  Request_Cookie (hr (ph pg)) SESSIONID = (Some c, None) →
  ∃ h1,
    RemoveSession (ph pg) = (Done tt, h1) ∧
    registered_user (hg h1) (Value c) = VNil ∧
    ∀ h h', accessControlHandler h (set_ph h1 pg)
            = accessControlHandler h' (set_ph h1 pg).
Proof.
  intros Hfake Hc. eexists. split; [by apply RemoveSession_eq |].
  set (h1 := mkH _ _ _).
  assert (Hgone : registered_user (hg h1) (Value c) = VNil).
  { unfold registered_user, stored_record, h1. simpl.
    destruct (sessions (hg (ph pg))) as [m |]; simpl; [| reflexivity].
    by rewrite lookup_delete_eq. }
  split; [exact Hgone |].
  apply accessControlHandler_without_user; [exact Hfake |].
  intros id h1' Hreq. simpl in Hreq.
  rewrite (requestSessionId_with_cookie h1 c) in Hreq by exact Hc.
  injection Hreq as <- _. exact Hgone.
Qed.

Lemma RemoveSession_then_denied_witness :
  ∃ h1,
    RemoveSession (mkH [] returning_request member_state) = (Done tt, h1) ∧
    registered_user member_state "abc123" = VOther "bob" ∧
    registered_user (hg h1) "abc123" = VNil.
Proof.
  destruct (RemoveSession_then_denied
              (mkPage (mkH [] returning_request member_state) false no_failure [])
              (mkCookie SESSIONID "abc123" "" 0) eq_refl eq_refl)
    as (h1 & H1 & H2 & _).
  exists h1. split; [exact H1 |]. split; [| exact H2].
  vm_compute. reflexivity.
Defined.

(** ** One session at a time *)

#[local] Instance value_eq_dec : EqDecision value.
Proof. solve_decision. Defined.

(** A check of the invariant that can be computed on a given state. *)
Lemma registry_inv_intro (st : state) :
  map_Forall
    (fun id l =>
       match heap st !! l with
       | Some rec =>
           bool_decide (rec !! SESSIONID = Some (VString id))
           && is_time (default VNil (rec !! LASTUSED))
       | None => false
       end = true)
    (default ∅ (sessions st)) →
  registry_inv st.
Proof.
  intros Hall m id l Hm Hl. rewrite Hm in Hall. simpl in Hall.
  specialize (Hall id l Hl). simpl in Hall.
  destruct (heap st !! l) as [rec |]; [| discriminate].
  apply andb_prop in Hall as [Hid Ht]. apply bool_decide_eq_true in Hid.
  destruct (rec !! LASTUSED) as [[| | t |] |] eqn:E; simpl in Ht;
    try discriminate.
  by exists rec, t.
Qed.

Lemma stored_record_frame (st st' : state) (m m' : gmap string loc)
    (id' : string) :
  registry_inv st →
  sessions st = Some m → sessions st' = Some m' →
  m' !! id' = m !! id' →
  (∀ l rec, m !! id' = Some l → heap st !! l = Some rec →
            heap st' !! l = Some rec) →
  stored_record st' id' = stored_record st id'.
Proof.
  intros Hinv Hs Hs' Hid Hheap. unfold stored_record. rewrite Hs, Hs', Hid.
  destruct (m !! id') as [l |] eqn:Hl; [| reflexivity].
  destruct (Hinv m id' l Hs Hl) as (rec & t & Hrec & _).
  simpl. rewrite Hrec. by rewrite (Hheap l rec eq_refl Hrec).
Qed.

Lemma insert_fresh_lookup (h : gmap loc (gmap string value)) (l : loc)
    (rec rec' : gmap string value) :
  h !! l = Some rec' → <[fresh (dom h) := rec]> h !! l = Some rec'.
Proof.
  intros Hl. rewrite lookup_insert_ne; [exact Hl |].
  intros E. pose proof (fresh_heap h) as Hf. rewrite E in Hf. congruence.
Qed.

Lemma SessionFor_locked_others (id id' : string) (st : state) :
  registry_inv st → id' ≠ id →
  stored_record (SessionFor_locked id st).2 id' = stored_record st id'.
Proof.
  intros Hinv Hne. rewrite SessionFor_locked_eq. cbv zeta. simpl.
  destruct (sessions st) as [m |] eqn:Hs.
  - eapply stored_record_frame; [exact Hinv | exact Hs | reflexivity | |].
    + simpl. by rewrite lookup_insert_ne.
    + intros l' rec' Hl' Hrec'. cbn [heap].
      unfold entry_for. rewrite Hs. simpl.
      apply insert_fresh_lookup.
      destruct (m !! id) as [l |] eqn:Hl; simpl.
      * rewrite lookup_insert_ne; [exact Hrec' |].
        by apply (registry_inv_distinct st m id id').
      * rewrite (lookup_insert_ne (<[_ := _]> _)).
        -- rewrite lookup_insert_ne; [exact Hrec' |].
           intros E. pose proof (fresh_heap (heap st)) as Hf.
           rewrite E in Hf. congruence.
        -- intros E. pose proof (fresh_heap (heap st)) as Hf.
           rewrite E in Hf. congruence.
  - unfold stored_record. simpl. rewrite Hs.
    rewrite lookup_insert_ne by done. by rewrite lookup_empty.
Qed.

(** X20: [SessionFor] works on one session only. In a sound registry,
    every record other than the one of the identifier the request
    resolves to is the same after the call as before, and when the call
    ends with an error every record is. *)
Theorem SessionFor_leaves_other_sessions (h : hstate) (id' : string) :
  registry_inv (hg h) →
  (∀ h1, requestSessionId h ≠ (Done (id', None), h1)) →
  stored_record (hg (SessionFor h).2) id' = stored_record (hg h) id'.
Proof.
  intros Hinv Hother.
  destruct (requestSessionId_total h) as (id & e & h1 & Hreq & _).
  pose proof (requestSessionId_only_drawn h) as Hdrawn.
  rewrite Hreq in Hdrawn. simpl in Hdrawn.
  rewrite <- (stored_record_only_drawn _ _ id' Hdrawn).
  unfold SessionFor, bind. rewrite Hreq.
  destruct e as [e |]; simpl; [reflexivity |].
  assert (Hne : id' ≠ id) by (intros ->; by apply (Hother h1)).
  pose proof (SessionFor_locked_others id id' (hg h1)
                (registry_inv_only_drawn _ _ Hdrawn Hinv) Hne) as H.
  unfold lift. destruct (SessionFor_locked id (hg h1)) as [o g]. exact H.
Qed.

Lemma SessionFor_leaves_other_sessions_witness :
  stored_record
    (hg (SessionFor (mkH [] no_cookies member_state)).2) "abc123"
  = stored_record member_state "abc123".
Proof.
  apply (SessionFor_leaves_other_sessions (mkH [] no_cookies member_state)).
  - apply registry_inv_intro. compute_done.
  - intros h1 H. vm_compute in H. discriminate.
Defined.

(** X21: [Save] works on one session only. In a sound registry, every
    record other than the one under the identifier of the saved record is
    the same after the call as before, whether the call returns or
    panics. *)
Theorem Save_leaves_other_sessions (s : sref) (st : state) (id' : string) :
  registry_inv st →
  (Id s st).1 ≠ Done id' →
  stored_record (Save s st).2 id' = stored_record st id'.
Proof.
  intros Hinv Hother. rewrite Id_eq in Hother. rewrite Save_eq. cbv zeta.
  assert (Hstore : ∀ id, id ≠ id' →
            stored_record
              (match sessions st with
               | Some m =>
                   (Done tt,
                    set_sessions (Some (<[id := fresh (dom (heap st))]> m))
                      (set_heap (<[fresh (dom (heap st)) := deref (heap st) s]>
                                   (heap st)) st))
               | None =>
                   (Panicked NilMapAssign,
                    set_heap (<[fresh (dom (heap st)) := deref (heap st) s]>
                                (heap st)) st)
               end).2 id'
            = stored_record st id').
  { intros id Hne. destruct (sessions st) as [m |] eqn:Hs; simpl.
    - eapply stored_record_frame; [exact Hinv | exact Hs | reflexivity | |].
      + simpl. by rewrite lookup_insert_ne.
      + intros l rec Hl Hrec. cbn [heap set_sessions set_heap].
        rewrite lookup_insert_ne; [exact Hrec |].
        intros E. pose proof (fresh_heap (heap st)) as Hf.
        rewrite E in Hf. congruence.
    - unfold stored_record. simpl. by rewrite Hs. }
  destruct (index (heap st) s SESSIONID) as [| id | t | v]; simpl in *;
    try reflexivity.
  - apply (Hstore ""). intros <-. by apply Hother.
  - apply (Hstore id). intros <-. by apply Hother.
Qed.

Lemma Save_leaves_other_sessions_witness :
  stored_record (Save (Some 1%positive) sweep_state).2 "young"
  = stored_record sweep_state "young".
Proof.
  apply (Save_leaves_other_sessions (Some 1%positive) sweep_state).
  - apply registry_inv_intro. compute_done.
  - vm_compute. discriminate.
Defined.
